(** * torch/nn/modules/linear.py: Linear, Bilinear and FiLM

    A shallow embedding of the three modules of [torch/nn/modules/linear.py]
    and of the part of the tensor library they call, followed by the
    properties of the forward computations, of the parameter initialisation
    and of the error behaviour.

    Tensors are dense and row-major: a shape (a list of dimension sizes) and
    the flat list of elements.  The element type is a parameter; exact
    arithmetic stands for the floating-point numbers ([Z] in the literal
    checks, [R] in the initialisation, which needs a square root). *)

From Stdlib Require Import Ascii String DecimalString DecimalPos DecimalZ.
From Stdlib Require Import List ZArith Arith Bool Lia Reals Lra.
Import ListNotations.

Set Implicit Arguments.

(** ** Exceptions and the result of a call *)

(** [ShapeMismatch] and [ConfigurationError] are the two kinds the
    specification names; the other three are what Python and the tensor
    library raise. *)
Inductive error : Type :=
| ShapeMismatch
| ConfigurationError
| ZeroDivisionError
| RuntimeError
| IndexError.

Inductive result (T : Type) : Type :=
| Ok (x : T)
| Raise (e : error).

Arguments Ok {T} x.
Arguments Raise {T} e.

Definition bind {T U : Type} (c : result T) (k : T -> result U) : result U :=
  match c with
  | Ok x => k x
  | Raise e => Raise e
  end.

Notation "x <- c ;; k" := (bind c (fun x => k))
  (at level 61, c at next level, right associativity).

(** ** Tensor elements *)

Class Num (A : Type) : Type := {
  zero : A;
  one : A;
  add : A -> A -> A;
  mul : A -> A -> A
}.

(** The two laws the identity modulation needs. *)
Class NumUnit (A : Type) (NA : Num A) : Prop := {
  mul_one_l : forall x : A, mul one x = x;
  add_zero_r : forall x : A, add x zero = x
}.

#[export] Instance Num_Z : Num Z :=
  {| zero := 0%Z; one := 1%Z; add := Z.add; mul := Z.mul |}.

#[export] Instance Num_R : Num R :=
  {| zero := 0%R; one := 1%R; add := Rplus; mul := Rmult |}.

#[export] Instance NumUnit_Z : NumUnit Num_Z.
Proof.
  split; intros x; unfold mul, add, one, zero, Num_Z.
  - apply Z.mul_1_l.
  - apply Z.add_0_r.
Qed.

(** [big_sum f n] is the sum of [f 0], ..., [f (n-1)]. *)
Definition big_sum {A : Type} `{Num A} (f : nat -> A) (n : nat) : A :=
  fold_right (fun i acc => add (f i) acc) zero (seq 0 n).

(** ** The tensor library *)

Module Tensor.

(** Modelled from the spec: the tensor type of the host library (the
    TensorView of the specification), which is not part of
    torch/nn/modules/linear.py: an n-dimensional array with a known shape,
    here with its elements in row-major order. *)
Record tensor (A : Type) : Type := {
  shape : list nat;
  data : list A
}.

Arguments shape {A} t.
Arguments data {A} t.

(** Number of elements of a shape. *)
Definition numel (s : list nat) : nat := fold_right Nat.mul 1 s.

Arguments numel : simpl never.

(** Modelled from the spec: [t.dim()], the rank, from the shape
    introspection of the tensor library. *)
Definition dim {A : Type} (t : tensor A) : nat := length (shape t).

(** Modelled from the spec: [t.size(k)] for a non-negative [k], from the
    shape introspection of the tensor library. *)
Definition size {A : Type} (t : tensor A) (k : nat) : result nat :=
  match nth_error (shape t) k with
  | Some d => Ok d
  | None => Raise IndexError
  end.

(** The storage holds exactly the elements of the shape. *)
Definition wf {A : Type} (t : tensor A) : Prop :=
  length (data t) = numel (shape t).

(** Row-major offset of a multi-index. *)
Fixpoint ravel (s idx : list nat) : nat :=
  match s, idx with
  | _ :: s', i :: idx' => i * numel s' + ravel s' idx'
  | _, _ => 0
  end.

(** The multi-index at a row-major offset. *)
Fixpoint unravel (s : list nat) (k : nat) : list nat :=
  match s with
  | [] => []
  | _ :: s' => k / numel s' :: unravel s' (k mod numel s')
  end.

Fixpoint in_bounds (s idx : list nat) : bool :=
  match s, idx with
  | [], [] => true
  | d :: s', i :: idx' => (i <? d) && in_bounds s' idx'
  | _, _ => false
  end.

Section Elements.
Context {A : Type} `{Num A}.

(** Modelled from the spec: indexing [t[i0, ..., ik]] of the tensor
    library; [zero] outside the storage. *)
Definition get (t : tensor A) (idx : list nat) : A :=
  nth (ravel (shape t) idx) (data t) zero.

(** The tensor of shape [s] whose element at [idx] is [f idx]. *)
Definition build (s : list nat) (f : list nat -> A) : tensor A :=
  {| shape := s;
     data := map (fun k => f (unravel s k)) (seq 0 (numel s)) |}.

(** *** Broadcasting *)

(** The shorter shape is padded with leading ones. *)
Definition pad (n : nat) (s : list nat) : list nat :=
  repeat 1 (n - length s) ++ s.

(** Modelled from the spec: the standard broadcasting rule of the tensor
    library, which is not part of torch/nn/modules/linear.py: two sizes
    are compatible when they are equal or one of them is one. *)
Definition broadcast_dim (a b : nat) : option nat :=
  if a =? b then Some a
  else if a =? 1 then Some b
  else if b =? 1 then Some a
  else None.

Fixpoint broadcast_zip (s1 s2 : list nat) : option (list nat) :=
  match s1, s2 with
  | [], [] => Some []
  | a :: s1', b :: s2' =>
      match broadcast_dim a b, broadcast_zip s1' s2' with
      | Some d, Some s => Some (d :: s)
      | _, _ => None
      end
  | _, _ => None
  end.

(** Modelled from the spec: the shape of the result of an elementwise
    operation of the tensor library, when the operands broadcast. *)
Definition broadcast_shapes (s1 s2 : list nat) : option (list nat) :=
  let n := Nat.max (length s1) (length s2) in
  broadcast_zip (pad n s1) (pad n s2).

(** The index of an operand of shape [s] that the result index [idx]
    reads: the trailing [length s] components, with 0 along the
    dimensions of size one. *)
Fixpoint clamp (s idx : list nat) : list nat :=
  match s, idx with
  | d :: s', i :: idx' => (if d =? 1 then 0 else i) :: clamp s' idx'
  | _, _ => []
  end.

Definition bidx (s idx : list nat) : list nat :=
  clamp s (skipn (length idx - length s) idx).

(** Modelled from the spec: an elementwise operation of the tensor
    library under broadcasting; shapes that do not broadcast make it
    raise. *)
Definition binop (op : A -> A -> A) (a b : tensor A) : result (tensor A) :=
  match broadcast_shapes (shape a) (shape b) with
  | Some s =>
      Ok (build s (fun idx =>
            op (get a (bidx (shape a) idx)) (get b (bidx (shape b) idx))))
  | None => Raise RuntimeError
  end.

(** [a * b] and [a + b] *)
Definition tmul : tensor A -> tensor A -> result (tensor A) := binop mul.
Definition tadd : tensor A -> tensor A -> result (tensor A) := binop add.

(** Modelled from the spec: [t.unsqueeze(d)] of the tensor library, which
    appends singleton dimensions: a dimension of size one inserted at
    position [d], counted from the end when [d] is negative. *)
Definition unsqueeze (t : tensor A) (d : Z) : result (tensor A) :=
  let n := Z.of_nat (dim t) in
  if ((- (n + 1) <=? d) && (d <=? n))%Z then
    let p := Z.to_nat (if (d <? 0)%Z then d + n + 1 else d)%Z in
    Ok {| shape := firstn p (shape t) ++ 1 :: skipn p (shape t);
          data := data t |}
  else Raise IndexError.

(** Modelled from the spec: the slice [t[b]] of the tensor library along
    the first dimension, for a non-negative [b]. *)
Definition select (t : tensor A) (b : nat) : result (tensor A) :=
  match shape t with
  | d :: s' =>
      if b <? d then
        Ok {| shape := s';
              data := firstn (numel s') (skipn (b * numel s') (data t)) |}
      else Raise IndexError
  | [] => Raise IndexError
  end.

(** A tensor filled with one value. *)
Definition full (s : list nat) (x : A) : tensor A := build s (fun _ => x).

End Elements.

End Tensor.

Import Tensor.

(** ** torch.nn.functional *)

Module F.
Section Functional.
Context {A : Type} `{Num A}.

(** [x + bias[j]] when a bias is given, [x] alone otherwise. *)
Definition add_bias (bias : option (tensor A)) (j : nat) (x : A) : A :=
  match bias with
  | Some b => add x (get b [j])
  | None => x
  end.

(** Modelled from the spec: [F.linear], which [Linear.forward] calls and
    which lives in torch/nn/functional.py.  For an input of shape
    [(..., in_features)] and a weight of shape [(out_features,
    in_features)] the output has shape [(..., out_features)] and
    [output[..., j] = sum_i input[..., i] * weight[j, i] + bias[j]], the
    bias term present only if configured; a trailing dimension other than
    [in_features] is a ShapeMismatch, found before any arithmetic. *)
Definition linear (input weight : tensor A) (bias : option (tensor A))
  : result (tensor A) :=
  match shape weight, rev (shape input) with
  | [out_f; in_f], d :: rlead =>
      if d =? in_f then
        Ok (build (rev rlead ++ [out_f]) (fun idx =>
              let l := removelast idx in
              let j := last idx 0 in
              add_bias bias j
                (big_sum (fun i => mul (get input (l ++ [i]))
                                       (get weight [j; i])) in_f)))
      else Raise ShapeMismatch
  | _, _ => Raise ShapeMismatch
  end.

(** Modelled from the spec: [F.bilinear], which [Bilinear.forward] calls
    and which lives in torch/nn/functional.py.  For inputs of shapes
    [(..., in1_features)] and [(..., in2_features)] with the same leading
    dimensions and a weight of shape [(out_features, in1_features,
    in2_features)],
    [output[..., j] = sum_i sum_k input1[..., i] * weight[j, i, k] *
    input2[..., k] + bias[j]]; a wrong trailing dimension or different
    leading dimensions are a ShapeMismatch. *)
Definition bilinear (input1 input2 weight : tensor A)
  (bias : option (tensor A)) : result (tensor A) :=
  match shape weight, rev (shape input1), rev (shape input2) with
  | [out_f; in1_f; in2_f], d1 :: rlead1, d2 :: rlead2 =>
      if (d1 =? in1_f) && (d2 =? in2_f)
         && (if list_eq_dec Nat.eq_dec rlead1 rlead2 then true else false)
      then
        Ok (build (rev rlead1 ++ [out_f]) (fun idx =>
              let l := removelast idx in
              let j := last idx 0 in
              add_bias bias j
                (big_sum (fun i =>
                   big_sum (fun k =>
                     mul (mul (get input1 (l ++ [i])) (get weight [j; i; k]))
                         (get input2 (l ++ [k]))) in2_f) in1_f)))
      else Raise ShapeMismatch
  | _, _, _ => Raise ShapeMismatch
  end.

End Functional.
End F.

(** ** The modules *)

(** [Linear]: the attributes [in_features], [out_features], [weight] and
    [bias]; [bias] is [None] when the module was built with [bias=False]. *)
Record Linear (A : Type) : Type := {
  in_features : Z;
  out_features : Z;
  weight : tensor A;
  bias : option (tensor A)
}.

Record Bilinear (A : Type) : Type := {
  in1_features : Z;
  in2_features : Z;
  bil_out_features : Z;
  bil_weight : tensor A;
  bil_bias : option (tensor A)
}.

Section Forward.
Context {A : Type} `{Num A}.

(** [Linear.forward] *)
Definition Linear_forward (self : Linear A) (input : tensor A)
  : result (tensor A) :=
  F.linear input (weight self) (bias self).

(** [Bilinear.forward] *)
Definition Bilinear_forward (self : Bilinear A) (input1 input2 : tensor A)
  : result (tensor A) :=
  F.bilinear input1 input2 (bil_weight self) (bil_bias self).

(** The body of the loop of [FiLM.forward], run [n] times. *)
Fixpoint unsqueeze_loop (n : nat) (gammas betas : tensor A)
  : result (tensor A * tensor A) :=
  match n with
  | 0 => Ok (gammas, betas)
  | S n' =>
      g <- unsqueeze gammas (-1) ;;
      b <- unsqueeze betas (-1) ;;
      unsqueeze_loop n' g b
  end.

(** [range(n)] runs [n] times, and not at all when [n] is negative. *)
Definition range_len (n : Z) : nat := Z.to_nat n.

(** [FiLM.forward] *)
Definition FiLM_forward (input gammas betas : tensor A)
  : result (tensor A) :=
  gb <- unsqueeze_loop (range_len (Z.of_nat (dim input) - 2)) gammas betas ;;
  p <- tmul (fst gb) input ;;
  tadd p (snd gb).

End Forward.

(** ** Construction and initialisation *)

Section Init.
(** The random source: each call returns a number of the unit interval
    and the next generator state. *)
Variable rng : Type.
Variable next_unit : rng -> R * rng.
(** What the allocator leaves in fresh storage, by offset. *)
Variable junk : nat -> R.

(** The generator and the shapes allocated so far, latest first. *)
Record world : Type := {
  gen : rng;
  allocated : list (list nat)
}.

(** A constructor step: a result or an exception, and the world after. *)
Definition M (T : Type) : Type := world -> result T * world.

Definition ret {T : Type} (x : T) : M T := fun w => (Ok x, w).

Definition throw {T : Type} (e : error) : M T := fun w => (Raise e, w).

Definition mbind {T U : Type} (c : M T) (k : T -> M U) : M U :=
  fun w =>
    match c w with
    | (Ok x, w') => k x w'
    | (Raise e, w') => (Raise e, w')
    end.

Definition lift {T : Type} (c : result T) : M T := fun w => (c, w).

Notation "x <~ c ;; k" := (mbind c (fun x => k))
  (at level 61, c at next level, right associativity).

(** Modelled from the spec: the allocator [torch.Tensor(sizes...)] of the
    tensor library: fresh storage of the given shape, not initialised; a
    negative size is refused. *)
Definition torch_Tensor (sizes : list Z) : M (tensor R) :=
  fun w =>
    if forallb (fun z => (0 <=? z)%Z) sizes then
      let s := map Z.to_nat sizes in
      (Ok {| shape := s; data := map junk (seq 0 (numel s)) |},
       {| gen := gen w; allocated := s :: allocated w |})
    else (Raise RuntimeError, w).

(** [n] numbers drawn between [lo] and [hi]. *)
Fixpoint draws (n : nat) (lo hi : R) (g : rng) : list R * rng :=
  match n with
  | 0 => ([], g)
  | S n' =>
      let (u, g1) := next_unit g in
      let (l, g2) := draws n' lo hi g1 in
      ((lo + u * (hi - lo))%R :: l, g2)
  end.

(** Modelled from the spec: [t.data.uniform_(lo, hi)] of the tensor
    library: every element replaced, in storage order, by a fresh draw
    between [lo] and [hi]. *)
Definition uniform_ (t : tensor R) (lo hi : R) : M (tensor R) :=
  fun w =>
    let (l, g') := draws (length (data t)) lo hi (gen w) in
    (Ok {| shape := shape t; data := l |},
     {| gen := g'; allocated := allocated w |}).

(** Every element of [t] is one of the draws of a [uniform_(lo, hi)]. *)
Definition filled (lo hi : R) (t : tensor R) : Prop :=
  exists g, data t = fst (draws (length (data t)) lo hi g).

(** [x / y] on floats. *)
Definition float_div (x y : R) : result R :=
  if Req_dec_T y 0 then Raise ZeroDivisionError else Ok (x / y)%R.

(** [1. / math.sqrt(w.size(1))] *)
Definition stdv_of (w : tensor R) : result R :=
  n <- size w 1 ;;
  float_div 1 (sqrt (INR n)).

(** [Linear.reset_parameters] *)
Definition Linear_reset_parameters (self : Linear R) : M (Linear R) :=
  stdv <~ lift (stdv_of (weight self)) ;;
  w <~ uniform_ (weight self) (- stdv) stdv ;;
  match bias self with
  | Some b =>
      b' <~ uniform_ b (- stdv) stdv ;;
      ret {| in_features := in_features self;
             out_features := out_features self;
             weight := w; bias := Some b' |}
  | None =>
      ret {| in_features := in_features self;
             out_features := out_features self;
             weight := w; bias := None |}
  end.

(** [Linear.__init__] *)
Definition Linear_init (in_f out_f : Z) (has_bias : bool) : M (Linear R) :=
  w <~ torch_Tensor [out_f; in_f] ;;
  b <~ (if has_bias
        then (t <~ torch_Tensor [out_f] ;; ret (Some t))
        else ret None) ;;
  Linear_reset_parameters
    {| in_features := in_f; out_features := out_f; weight := w; bias := b |}.

(** [Bilinear.reset_parameters] *)
Definition Bilinear_reset_parameters (self : Bilinear R) : M (Bilinear R) :=
  stdv <~ lift (stdv_of (bil_weight self)) ;;
  w <~ uniform_ (bil_weight self) (- stdv) stdv ;;
  match bil_bias self with
  | Some b =>
      b' <~ uniform_ b (- stdv) stdv ;;
      ret {| in1_features := in1_features self;
             in2_features := in2_features self;
             bil_out_features := bil_out_features self;
             bil_weight := w; bil_bias := Some b' |}
  | None =>
      ret {| in1_features := in1_features self;
             in2_features := in2_features self;
             bil_out_features := bil_out_features self;
             bil_weight := w; bil_bias := None |}
  end.

(** [Bilinear.__init__] *)
Definition Bilinear_init (in1_f in2_f out_f : Z) (has_bias : bool)
  : M (Bilinear R) :=
  w <~ torch_Tensor [out_f; in1_f; in2_f] ;;
  b <~ (if has_bias
        then (t <~ torch_Tensor [out_f] ;; ret (Some t))
        else ret None) ;;
  Bilinear_reset_parameters
    {| in1_features := in1_f; in2_features := in2_f;
       bil_out_features := out_f; bil_weight := w; bil_bias := b |}.

End Init.


(** ** Module invariants and instances *)

Section Invariants.
Context {A : Type}.

(** The weight of a [Linear] has the shape its configuration gives. *)
Definition Linear_inv (m : Linear A) : Prop :=
  shape (weight m) =
    [Z.to_nat (out_features m); Z.to_nat (in_features m)].

Definition Bilinear_inv (m : Bilinear A) : Prop :=
  shape (bil_weight m) =
    [Z.to_nat (bil_out_features m); Z.to_nat (in1_features m);
     Z.to_nat (in2_features m)].

End Invariants.

(** [t] with [k] trailing dimensions of size one. *)
Definition append_ones {A : Type} (t : tensor A) (k : nat) : tensor A :=
  {| shape := shape t ++ repeat 1 k; data := data t |}.

Definition tensorZ (s : list nat) (d : list Z) : tensor Z :=
  {| shape := s; data := d |}.

(** A [Linear] with 4 input and 2 output features and a bias. *)
Definition linear_4_2 : Linear Z :=
  {| in_features := 4; out_features := 2;
     weight := tensorZ [2; 4] [1; 2; 3; 4; 5; 6; 7; 8]%Z;
     bias := Some (tensorZ [2] [100; 200]%Z) |}.

(** The [Bilinear] of the literal check: the identity for one output. *)
Definition bilinear_dot : Bilinear Z :=
  {| in1_features := 2; in2_features := 2; bil_out_features := 1;
     bil_weight := tensorZ [1; 2; 2] [1; 0; 0; 1]%Z;
     bil_bias := None |}.

(** A generator that always answers one half. *)
Definition const_rng (g : unit) : R * unit := ((1 / 2)%R, g).

Definition no_junk (k : nat) : R := 0%R.

Definition world0 : world unit := {| gen := tt; allocated := [] |}.


(** ** extra_repr *)

(** [str(z)] for an integer: the decimal digits, with a leading minus sign
    for a negative number. *)
Definition py_str_int (z : Z) : string :=
  NilZero.string_of_int (Z.to_int z).

(** [int(s)] on what [str] prints. *)
Definition py_int_of_str (s : string) : option Z :=
  option_map Z.of_int (NilZero.int_of_string s).

(** [str(b)] for a boolean. *)
Definition py_str_bool (b : bool) : string :=
  if b then "True"%string else "False"%string.

(** [x is not None] *)
Definition is_not_None {T : Type} (x : option T) : bool :=
  match x with
  | Some _ => true
  | None => false
  end.

(** [Linear.extra_repr] *)
Definition Linear_extra_repr {A : Type} (self : Linear A) : string :=
  ("in_features=" ++ py_str_int (in_features self)
   ++ ", out_features=" ++ py_str_int (out_features self)
   ++ ", bias=" ++ py_str_bool (is_not_None (bias self)))%string.

(** [Bilinear.extra_repr] *)
Definition Bilinear_extra_repr {A : Type} (self : Bilinear A) : string :=
  ("in1_features=" ++ py_str_int (in1_features self)
   ++ ", in2_features=" ++ py_str_int (in2_features self)
   ++ ", out_features=" ++ py_str_int (bil_out_features self)
   ++ ", bias=" ++ py_str_bool (is_not_None (bil_bias self)))%string.

(** No character of [s] is a comma. *)
Fixpoint comma_free (s : string) : bool :=
  match s with
  | EmptyString => true
  | String c s' => negb (Ascii.eqb c ","%char) && comma_free s'
  end.

(** ** Laws of exact arithmetic *)

(** The laws that composing two modulations needs. *)
Class NumRing (A : Type) (NA : Num A) : Prop := {
  add_assoc : forall x y z : A, add x (add y z) = add (add x y) z;
  mul_assoc : forall x y z : A, mul x (mul y z) = mul (mul x y) z;
  mul_add_distr_l : forall x y z : A,
    mul x (add y z) = add (mul x y) (mul x z)
}.

#[export] Instance NumRing_Z : NumRing Num_Z.
Proof.
  split; intros x y z; unfold mul, add, Num_Z.
  - apply Z.add_assoc.
  - apply Z.mul_assoc.
  - apply Z.mul_add_distr_l.
Qed.


(** The elements of an optional parameter; none when it is [None]. *)
Definition param_data {A : Type} (p : option (tensor A)) : list A :=
  match p with
  | Some t => data t
  | None => []
  end.

(** A second [Linear] with the configuration of [linear_4_2] and other
    parameter values. *)
Definition linear_4_2_ones : Linear Z :=
  {| in_features := 4; out_features := 2;
     weight := tensorZ [2; 4] (repeat 1%Z 8);
     bias := Some (tensorZ [2] [0; 0]%Z) |}.

(** A [Linear] over the reals whose parameters hold values outside any
    initialisation interval. *)
Definition linear_trained : Linear R :=
  {| in_features := 4; out_features := 1;
     weight := {| shape := [1; 4]; data := [50; -70; 3; 9]%R |};
     bias := Some {| shape := [1]; data := [1000%R] |} |}.

(** A [Linear] whose weight has no input column. *)
Definition linear_no_input : Linear R :=
  {| in_features := 0; out_features := 2;
     weight := {| shape := [2; 0]; data := [] |};
     bias := Some {| shape := [2]; data := [7; 8]%R |} |}.


(** A second [Bilinear] with the configuration of [bilinear_dot] and
    another weight. *)
Definition bilinear_swap : Bilinear Z :=
  {| in1_features := 2; in2_features := 2; bil_out_features := 1;
     bil_weight := tensorZ [1; 2; 2] [0; 1; 1; 0]%Z;
     bil_bias := None |}.


(** A generator whose answers alternate between the two ends of the unit
    interval, 0 first. *)
Definition alternating_rng (g : bool) : R * bool :=
  ((if g then 1 else 0)%R, negb g).

Definition world_alt : world bool := {| gen := false; allocated := [] |}.


(** * Properties *)

(** ** Row-major indexing *)

Lemma in_bounds_cons (d i : nat) (s idx : list nat) :
  in_bounds (d :: s) (i :: idx) = true <-> i < d /\ in_bounds s idx = true.
Proof.
  simpl. rewrite andb_true_iff, Nat.ltb_lt. tauto.
Qed.

Lemma in_bounds_length (s idx : list nat) :
  in_bounds s idx = true -> length idx = length s.
Proof.
  revert idx. induction s as [|d s IH]; intros [|i idx]; simpl; try discriminate.
  - reflexivity.
  - rewrite andb_true_iff. intros [_ Hb]. f_equal. now apply IH.
Qed.

Lemma in_bounds_app (s1 s2 i1 i2 : list nat) :
  length i1 = length s1 ->
  in_bounds (s1 ++ s2) (i1 ++ i2) = in_bounds s1 i1 && in_bounds s2 i2.
Proof.
  revert i1. induction s1 as [|d s1 IH]; intros [|i i1]; simpl; try discriminate.
  - reflexivity.
  - intros Hl. rewrite IH by lia. now rewrite andb_assoc.
Qed.

Lemma in_bounds_nil_l (idx : list nat) :
  in_bounds [] idx = true -> idx = [].
Proof.
  destruct idx; simpl; [reflexivity | discriminate].
Qed.

Lemma numel_app (s1 s2 : list nat) :
  numel (s1 ++ s2) = numel s1 * numel s2.
Proof.
  induction s1 as [|d s1 IH].
  - unfold numel at 2. simpl. lia.
  - simpl app. unfold numel in *. simpl. rewrite IH. lia.
Qed.

Lemma numel_cons (d : nat) (s : list nat) : numel (d :: s) = d * numel s.
Proof. reflexivity. Qed.

Lemma ravel_lt (s idx : list nat) :
  in_bounds s idx = true -> ravel s idx < numel s.
Proof.
  revert idx. induction s as [|d s IH]; intros [|i idx]; simpl; try discriminate.
  - intros _. unfold numel. simpl. lia.
  - rewrite andb_true_iff, Nat.ltb_lt. intros [Hi Hb].
    specialize (IH _ Hb). rewrite numel_cons. nia.
Qed.

Lemma unravel_ravel (s idx : list nat) :
  in_bounds s idx = true -> unravel s (ravel s idx) = idx.
Proof.
  revert idx. induction s as [|d s IH]; intros [|i idx]; simpl; try discriminate.
  - reflexivity.
  - rewrite andb_true_iff. intros [_ Hb].
    pose proof (ravel_lt _ _ Hb) as Hlt.
    assert (Hn : numel s <> 0) by lia.
    f_equal.
    + rewrite Nat.add_comm, Nat.div_add by exact Hn.
      rewrite Nat.div_small by exact Hlt. reflexivity.
    + rewrite Nat.add_comm, Nat.Div0.mod_add.
      rewrite Nat.mod_small by exact Hlt. now apply IH.
Qed.

Lemma unravel_in_bounds (s : list nat) (k : nat) :
  k < numel s -> in_bounds s (unravel s k) = true.
Proof.
  revert k. induction s as [|d s IH]; intros k Hk; simpl.
  - reflexivity.
  - rewrite numel_cons in Hk.
    assert (Hn : numel s <> 0) by (intros E; rewrite E in Hk; lia).
    rewrite andb_true_iff, Nat.ltb_lt. split.
    + apply Nat.Div0.div_lt_upper_bound. lia.
    + apply IH. now apply Nat.mod_upper_bound.
Qed.

Lemma ravel_unravel (s : list nat) (k : nat) :
  k < numel s -> ravel s (unravel s k) = k.
Proof.
  revert k. induction s as [|d s IH]; intros k Hk; simpl.
  - unfold numel in Hk. simpl in Hk. lia.
  - rewrite numel_cons in Hk.
    assert (Hn : numel s <> 0) by (intros E; rewrite E in Hk; lia).
    rewrite IH by now apply Nat.mod_upper_bound.
    pose proof (Nat.div_mod_eq k (numel s)). lia.
Qed.

(** ** Reading and building tensors *)

Section TensorFacts.
Context {A : Type} `{Num A}.

Lemma build_shape (s : list nat) (f : list nat -> A) : shape (build s f) = s.
Proof. reflexivity. Qed.

Lemma build_wf (s : list nat) (f : list nat -> A) : wf (build s f).
Proof.
  unfold wf, build. simpl. now rewrite length_map, length_seq.
Qed.

Lemma get_build (s : list nat) (f : list nat -> A) (idx : list nat) :
  in_bounds s idx = true -> get (build s f) idx = f idx.
Proof.
  intros Hb. unfold get, build. simpl.
  pose proof (ravel_lt _ _ Hb) as Hlt.
  rewrite nth_indep with (d' := f (unravel s 0))
    by now rewrite length_map, length_seq.
  rewrite (map_nth (fun k => f (unravel s k)) (seq 0 (numel s)) 0).
  rewrite seq_nth by exact Hlt. simpl.
  now rewrite unravel_ravel.
Qed.

(** A well-formed tensor is the table of its elements. *)
Lemma build_get (t : tensor A) :
  wf t -> build (shape t) (get t) = t.
Proof.
  destruct t as [s l]. unfold wf, build, get. simpl. intros Hl. f_equal.
  apply nth_ext with (d := zero) (d' := zero).
  - now rewrite length_map, length_seq.
  - intros k Hk. rewrite length_map, length_seq in Hk.
    rewrite nth_indep with (d' := nth (ravel s (unravel s 0)) l zero)
      by now rewrite length_map, length_seq.
    rewrite (map_nth (fun k => nth (ravel s (unravel s k)) l zero)
               (seq 0 (numel s)) 0).
    rewrite seq_nth by exact Hk. simpl.
    now rewrite ravel_unravel.
Qed.

Lemma build_ext (s : list nat) (f g : list nat -> A) :
  (forall idx, in_bounds s idx = true -> f idx = g idx) ->
  build s f = build s g.
Proof.
  intros E. unfold build. f_equal. apply map_ext_in.
  intros k Hk. apply in_seq in Hk. apply E. apply unravel_in_bounds. lia.
Qed.

(** Two well-formed tensors of one shape with the same elements are equal. *)
Lemma tensor_ext (t1 t2 : tensor A) :
  wf t1 -> wf t2 -> shape t1 = shape t2 ->
  (forall idx, in_bounds (shape t1) idx = true -> get t1 idx = get t2 idx) ->
  t1 = t2.
Proof.
  intros W1 W2 Es E.
  rewrite <- (build_get W1), <- (build_get W2), <- Es.
  now apply build_ext.
Qed.

Lemma full_get (s : list nat) (x : A) (idx : list nat) :
  in_bounds s idx = true -> get (full s x) idx = x.
Proof. intros Hb. unfold full. now rewrite get_build. Qed.

End TensorFacts.

(** ** Linear.forward *)

Section LinearForward.
Context {A : Type} `{Num A}.

Lemma in_bounds_snoc (lead idx : list nat) (d j : nat) :
  in_bounds lead idx = true -> j < d ->
  in_bounds (lead ++ [d]) (idx ++ [j]) = true.
Proof.
  intros Hb Hj. rewrite in_bounds_app by now apply in_bounds_length.
  rewrite Hb. simpl. apply Nat.ltb_lt in Hj. now rewrite Hj.
Qed.

(** What [F.linear] returns on an input whose trailing dimension is the
    second dimension of the weight. *)
Lemma linear_ok (input w : tensor A) (b : option (tensor A))
  (lead : list nat) (out_f in_f : nat) :
  shape w = [out_f; in_f] ->
  shape input = lead ++ [in_f] ->
  F.linear input w b =
    Ok (build (lead ++ [out_f]) (fun idx =>
          F.add_bias b (last idx 0)
            (big_sum (fun i => mul (get input (removelast idx ++ [i]))
                                   (get w [last idx 0; i])) in_f))).
Proof.
  intros Hw Hi. unfold F.linear. rewrite Hw, Hi, rev_unit.
  rewrite Nat.eqb_refl, rev_involutive. reflexivity.
Qed.

Lemma linear_mismatch (input w : tensor A) (b : option (tensor A))
  (lead : list nat) (out_f in_f d : nat) :
  shape w = [out_f; in_f] ->
  shape input = lead ++ [d] ->
  d <> in_f ->
  F.linear input w b = Raise ShapeMismatch.
Proof.
  intros Hw Hi Hd. unfold F.linear. rewrite Hw, Hi, rev_unit.
  apply Nat.eqb_neq in Hd. now rewrite Hd.
Qed.

(** The elements of the output of [Linear.forward]. *)
Lemma Linear_forward_elements (m : Linear A) (input : tensor A)
  (lead : list nat) :
  Linear_inv m ->
  shape input = lead ++ [Z.to_nat (in_features m)] ->
  exists output,
    Linear_forward m input = Ok output /\
    shape output = lead ++ [Z.to_nat (out_features m)] /\
    wf output /\
    forall idx j,
      in_bounds lead idx = true -> j < Z.to_nat (out_features m) ->
      get output (idx ++ [j]) =
        let s := big_sum (fun i => mul (get input (idx ++ [i]))
                                       (get (weight m) [j; i]))
                         (Z.to_nat (in_features m)) in
        match bias m with
        | Some b => add s (get b [j])
        | None => s
        end.
Proof.
  intros Hinv Hs. unfold Linear_forward.
  rewrite (@linear_ok input (weight m) (bias m) lead _ _ Hinv Hs).
  eexists. split; [reflexivity|]. split; [reflexivity|].
  split; [apply build_wf|].
  intros idx j Hb Hj.
  rewrite get_build by now apply in_bounds_snoc.
  rewrite removelast_last, last_last. reflexivity.
Qed.

(** C2: for a Linear built with in_features and out_features and an input of
    shape (..., in_features), with zero or more leading dimensions, forward
    returns a tensor of shape (..., out_features) with
    output[..., j] = sum_i input[..., i] * weight[j, i], plus bias[j] exactly
    when the bias is configured. *)
Theorem Linear_forward_spec (m : Linear A) (input : tensor A)
  (lead : list nat) :
  Linear_inv m ->
  shape input = lead ++ [Z.to_nat (in_features m)] ->
  exists output,
    Linear_forward m input = Ok output /\
    shape output = lead ++ [Z.to_nat (out_features m)] /\
    wf output /\
    forall idx j,
      in_bounds lead idx = true -> j < Z.to_nat (out_features m) ->
      get output (idx ++ [j]) =
        let s := big_sum (fun i => mul (get input (idx ++ [i]))
                                       (get (weight m) [j; i]))
                         (Z.to_nat (in_features m)) in
        match bias m with
        | Some b => add s (get b [j])
        | None => s
        end.
Proof. apply Linear_forward_elements. Qed.

(** C8: when the trailing dimension of the input differs from in_features,
    forward fails with ShapeMismatch: no output tensor is computed. *)
Theorem Linear_forward_shape_mismatch (m : Linear A) (input : tensor A)
  (lead : list nat) (d : nat) :
  Linear_inv m ->
  shape input = lead ++ [d] ->
  d <> Z.to_nat (in_features m) ->
  Linear_forward m input = Raise ShapeMismatch.
Proof.
  intros Hinv Hs Hd. unfold Linear_forward.
  exact (@linear_mismatch input (weight m) (bias m) lead _ _ d Hinv Hs Hd).
Qed.

End LinearForward.

Lemma Linear_forward_spec_witness :
  exists output,
    Linear_forward linear_4_2 (tensorZ [2; 4] [1; 0; 0; 0; 1; 1; 1; 1]%Z)
      = Ok output /\
    shape output = [2; 2] /\
    get output [1; 1] = 226%Z.
Proof.
  destruct (@Linear_forward_spec Z _ linear_4_2
              (tensorZ [2; 4] [1; 0; 0; 0; 1; 1; 1; 1]%Z) [2]
              eq_refl eq_refl) as [out [E [Hs [_ Hg]]]].
  exists out. split; [exact E|]. split; [exact Hs|].
  exact (Hg [1] 1 eq_refl (le_n 2)).
Defined.

Lemma Linear_forward_shape_mismatch_witness :
  Linear_forward linear_4_2 (tensorZ [3; 5] (repeat 1%Z 15))
    = Raise ShapeMismatch.
Proof.
  apply (@Linear_forward_shape_mismatch Z _ linear_4_2
           (tensorZ [3; 5] (repeat 1%Z 15)) [3] 5 eq_refl eq_refl).
  simpl. lia.
Defined.

(** ** Slices along the first dimension *)

Section Slices.
Context {A : Type} `{Num A}.

Lemma big_sum_ext (f g : nat -> A) (n : nat) :
  (forall i, i < n -> f i = g i) -> big_sum f n = big_sum g n.
Proof.
  intros E. unfold big_sum.
  assert (Hin : forall i, In i (seq 0 n) -> f i = g i)
    by (intros i Hi; apply in_seq in Hi; apply E; lia).
  induction (seq 0 n) as [|a l IH]; simpl.
  - reflexivity.
  - rewrite Hin by now left. rewrite IH; [reflexivity|].
    intros i Hi. apply Hin. now right.
Qed.

Lemma select_ok (t : tensor A) (d b : nat) (s : list nat) :
  shape t = d :: s -> b < d ->
  select t b =
    Ok {| shape := s;
          data := firstn (numel s) (skipn (b * numel s) (data t)) |}.
Proof.
  intros Hs Hb. unfold select. rewrite Hs.
  apply Nat.ltb_lt in Hb. now rewrite Hb.
Qed.

Lemma slice_wf (t : tensor A) (d b : nat) (s : list nat) :
  wf t -> shape t = d :: s -> b < d ->
  wf {| shape := s;
        data := firstn (numel s) (skipn (b * numel s) (data t)) |}.
Proof.
  unfold wf. simpl. intros W Hs Hb.
  rewrite length_firstn, length_skipn, W, Hs, numel_cons. nia.
Qed.

Lemma slice_get (t : tensor A) (d b : nat) (s idx : list nat) :
  shape t = d :: s -> in_bounds s idx = true ->
  get {| shape := s;
         data := firstn (numel s) (skipn (b * numel s) (data t)) |} idx
  = get t (b :: idx).
Proof.
  intros Hs Hb. unfold get. simpl. rewrite Hs.
  pose proof (ravel_lt _ _ Hb) as Hlt.
  rewrite nth_firstn. apply Nat.ltb_lt in Hlt. rewrite Hlt.
  rewrite nth_skipn.
  destruct idx; reflexivity.
Qed.

Lemma in_bounds_pair (a c : nat) (idx : list nat) :
  in_bounds [a; c] idx = true ->
  exists i j, idx = [i; j] /\ i < a /\ j < c.
Proof.
  destruct idx as [|i [|j [|k idx]]]; simpl; try discriminate.
  - now rewrite andb_false_r.
  - rewrite andb_true_r, andb_true_iff, !Nat.ltb_lt. intros [Hi Hj].
    now exists i, j.
  - now rewrite !andb_false_r.
Qed.

(** C9: for a Linear with fixed weight and bias and an input of shape
    (B1, B2, in_features), the output has shape (B1, B2, out_features) and
    its slice at every index b along B1 is forward applied to the slice of
    the input at b. *)
Theorem Linear_forward_slice (m : Linear A) (input : tensor A)
  (B1 B2 b : nat) :
  Linear_inv m ->
  wf input ->
  shape input = [B1; B2; Z.to_nat (in_features m)] ->
  b < B1 ->
  exists output input_b output_b,
    Linear_forward m input = Ok output /\
    shape output = [B1; B2; Z.to_nat (out_features m)] /\
    select input b = Ok input_b /\
    shape input_b = [B2; Z.to_nat (in_features m)] /\
    select output b = Ok output_b /\
    Linear_forward m input_b = Ok output_b.
Proof.
  intros Hinv W Hs Hb.
  destruct (@Linear_forward_elements A _ m input [B1; B2] Hinv Hs)
    as [out [E [Hso [Wo Hg]]]].
  pose proof (@select_ok input B1 b _ Hs Hb) as Esel.
  pose proof (@select_ok out B1 b _ Hso Hb) as Eselo.
  set (xb := {| shape := [B2; Z.to_nat (in_features m)];
                data := firstn (numel [B2; Z.to_nat (in_features m)])
                          (skipn (b * numel [B2; Z.to_nat (in_features m)])
                             (data input)) |}) in *.
  set (yb := {| shape := [B2; Z.to_nat (out_features m)];
                data := firstn (numel [B2; Z.to_nat (out_features m)])
                          (skipn (b * numel [B2; Z.to_nat (out_features m)])
                             (data out)) |}) in *.
  destruct (@Linear_forward_elements A _ m xb [B2] Hinv eq_refl)
    as [out' [E' [Hso' [Wo' Hg']]]].
  exists out, xb, yb.
  repeat split; try assumption.
  rewrite E'. f_equal.
  apply tensor_ext; try assumption.
  - exact (@slice_wf out B1 b _ Wo Hso Hb).
  - intros idx Hin. rewrite Hso' in Hin.
    destruct (in_bounds_pair _ _ _ Hin) as [i [j [-> [Hi Hj]]]].
    assert (Hbi : in_bounds [B2] [i] = true)
      by (simpl; apply Nat.ltb_lt in Hi; now rewrite Hi).
    change [i; j] with ([i] ++ [j]) at 1.
    rewrite (Hg' [i] j Hbi Hj).
    unfold yb. rewrite (@slice_get out B1 b _ [i; j] Hso).
    2:{ simpl. apply Nat.ltb_lt in Hi, Hj. now rewrite Hi, Hj. }
    assert (Hbbi : in_bounds [B1; B2] [b; i] = true)
      by (simpl; apply Nat.ltb_lt in Hi, Hb; now rewrite Hi, Hb).
    change [b; i; j] with ([b; i] ++ [j]).
    rewrite (Hg [b; i] j Hbbi Hj). cbv zeta.
    assert (Esum :
      big_sum (fun i0 => mul (get xb ([i] ++ [i0])) (get (weight m) [j; i0]))
        (Z.to_nat (in_features m)) =
      big_sum (fun i0 => mul (get input ([b; i] ++ [i0]))
                             (get (weight m) [j; i0]))
        (Z.to_nat (in_features m))).
    { apply big_sum_ext. intros i0 Hi0. f_equal.
      unfold xb. apply (@slice_get input B1 b _ [i; i0] Hs).
      simpl. apply Nat.ltb_lt in Hi, Hi0. now rewrite Hi, Hi0. }
    now rewrite Esum.
Qed.


End Slices.

Lemma Linear_forward_slice_witness :
  exists output input_b output_b,
    Linear_forward linear_4_2 (tensorZ [2; 3; 4] (map Z.of_nat (seq 0 24)))
      = Ok output /\
    shape output = [2; 3; 2] /\
    select (tensorZ [2; 3; 4] (map Z.of_nat (seq 0 24))) 1 = Ok input_b /\
    shape input_b = [3; 4] /\
    select output 1 = Ok output_b /\
    Linear_forward linear_4_2 input_b = Ok output_b.
Proof.
  apply (@Linear_forward_slice Z _ linear_4_2
           (tensorZ [2; 3; 4] (map Z.of_nat (seq 0 24))) 2 3 1).
  - reflexivity.
  - reflexivity.
  - reflexivity.
  - lia.
Defined.

(** ** Bilinear.forward *)

Section BilinearForward.
Context {A : Type} `{Num A}.

Lemma bilinear_ok (input1 input2 w : tensor A) (b : option (tensor A))
  (lead : list nat) (out_f in1_f in2_f : nat) :
  shape w = [out_f; in1_f; in2_f] ->
  shape input1 = lead ++ [in1_f] ->
  shape input2 = lead ++ [in2_f] ->
  F.bilinear input1 input2 w b =
    Ok (build (lead ++ [out_f]) (fun idx =>
          F.add_bias b (last idx 0)
            (big_sum (fun i =>
               big_sum (fun k =>
                 mul (mul (get input1 (removelast idx ++ [i]))
                          (get w [last idx 0; i; k]))
                     (get input2 (removelast idx ++ [k]))) in2_f) in1_f))).
Proof.
  intros Hw H1 H2. unfold F.bilinear. rewrite Hw, H1, H2, !rev_unit.
  rewrite !Nat.eqb_refl. simpl.
  destruct (list_eq_dec Nat.eq_dec (rev lead) (rev lead)) as [_|N];
    [|now elim N].
  now rewrite rev_involutive.
Qed.

End BilinearForward.

(** C1: for a Bilinear built with in1_features, in2_features and
    out_features and inputs of shapes (..., in1_features) and
    (..., in2_features) with the same leading dimensions, forward returns a
    tensor of shape (..., out_features) with
    output[..., j] = sum_i sum_k input1[..., i] * weight[j, i, k] *
    input2[..., k], plus bias[j] when the bias is configured; and with
    in1 = in2 = 2, out = 1, weight [[[1,0],[0,1]]], no bias, input1 = [1,2]
    and input2 = [3,4] the output is [11]. *)
Theorem Bilinear_forward_spec :
  (forall (A : Type) (NA : Num A) (m : Bilinear A)
          (input1 input2 : tensor A) (lead : list nat),
      Bilinear_inv m ->
      shape input1 = lead ++ [Z.to_nat (in1_features m)] ->
      shape input2 = lead ++ [Z.to_nat (in2_features m)] ->
      exists output,
        Bilinear_forward m input1 input2 = Ok output /\
        shape output = lead ++ [Z.to_nat (bil_out_features m)] /\
        wf output /\
        forall idx j,
          in_bounds lead idx = true ->
          j < Z.to_nat (bil_out_features m) ->
          get output (idx ++ [j]) =
            let s :=
              big_sum (fun i =>
                big_sum (fun k =>
                  mul (mul (get input1 (idx ++ [i]))
                           (get (bil_weight m) [j; i; k]))
                      (get input2 (idx ++ [k])))
                  (Z.to_nat (in2_features m)))
                (Z.to_nat (in1_features m)) in
            match bil_bias m with
            | Some b => add s (get b [j])
            | None => s
            end) /\
  Bilinear_forward bilinear_dot (tensorZ [2] [1; 2]%Z) (tensorZ [2] [3; 4]%Z)
    = Ok (tensorZ [1] [11]%Z).
Proof.
  split; [|reflexivity].
  intros A NA m input1 input2 lead Hinv H1 H2. unfold Bilinear_forward.
  rewrite (@bilinear_ok A NA input1 input2 (bil_weight m) (bil_bias m) lead
             _ _ _ Hinv H1 H2).
  eexists. split; [reflexivity|]. split; [reflexivity|].
  split; [apply build_wf|].
  intros idx j Hb Hj.
  rewrite get_build by now apply in_bounds_snoc.
  rewrite removelast_last, last_last. reflexivity.
Qed.

Lemma Bilinear_forward_spec_witness :
  exists output,
    Bilinear_forward bilinear_dot (tensorZ [3; 2] [1; 2; 3; 4; 5; 6]%Z)
      (tensorZ [3; 2] [1; 0; 0; 1; 2; 2]%Z) = Ok output /\
    shape output = [3; 1] /\
    get output [2; 0] = 22%Z.
Proof.
  destruct (proj1 Bilinear_forward_spec Z _ bilinear_dot
              (tensorZ [3; 2] [1; 2; 3; 4; 5; 6]%Z)
              (tensorZ [3; 2] [1; 0; 0; 1; 2; 2]%Z) [3]
              eq_refl eq_refl eq_refl) as [out [E [Hs [_ Hg]]]].
  exists out. split; [exact E|]. split; [exact Hs|].
  exact (Hg [2] 0 eq_refl (le_n 1)).
Defined.

(** ** Broadcasting *)

Lemma broadcast_dim_refl (a : nat) : broadcast_dim a a = Some a.
Proof. unfold broadcast_dim. now rewrite Nat.eqb_refl. Qed.

Lemma broadcast_dim_one_l (a : nat) : broadcast_dim 1 a = Some a.
Proof.
  unfold broadcast_dim. destruct (1 =? a) eqn:E; [|reflexivity].
  apply Nat.eqb_eq in E. now subst.
Qed.

Lemma broadcast_dim_one_r (a : nat) : broadcast_dim a 1 = Some a.
Proof.
  unfold broadcast_dim. destruct (a =? 1) eqn:E; reflexivity.
Qed.

Lemma broadcast_dim_none (a b : nat) :
  a <> b -> a <> 1 -> b <> 1 -> broadcast_dim a b = None.
Proof.
  intros Hab Ha Hb. unfold broadcast_dim.
  apply Nat.eqb_neq in Hab, Ha, Hb. now rewrite Hab, Ha, Hb.
Qed.

Lemma broadcast_zip_refl (s : list nat) : broadcast_zip s s = Some s.
Proof.
  induction s as [|a s IH]; simpl; [reflexivity|].
  now rewrite broadcast_dim_refl, IH.
Qed.

Lemma broadcast_zip_ones_l (s : list nat) :
  broadcast_zip (repeat 1 (length s)) s = Some s.
Proof.
  induction s as [|a s IH]; simpl; [reflexivity|].
  now rewrite broadcast_dim_one_l, IH.
Qed.

Lemma broadcast_zip_ones_r (s : list nat) :
  broadcast_zip s (repeat 1 (length s)) = Some s.
Proof.
  induction s as [|a s IH]; simpl; [reflexivity|].
  now rewrite broadcast_dim_one_r, IH.
Qed.

Lemma pad_same (n : nat) (s : list nat) : n = length s -> pad n s = s.
Proof. intros ->. unfold pad. now rewrite Nat.sub_diag. Qed.

Lemma broadcast_shapes_same_rank (s1 s2 : list nat) :
  length s1 = length s2 ->
  broadcast_shapes s1 s2 = broadcast_zip s1 s2.
Proof.
  intros E. unfold broadcast_shapes. rewrite E, Nat.max_id.
  now rewrite (pad_same s1 (eq_sym E)), (@pad_same _ s2 eq_refl).
Qed.

Lemma clamp_in_bounds (s idx : list nat) :
  in_bounds s idx = true -> clamp s idx = idx.
Proof.
  revert idx. induction s as [|d s IH]; intros [|i idx]; simpl;
    try discriminate; try reflexivity.
  rewrite andb_true_iff, Nat.ltb_lt. intros [Hi Hb].
  rewrite IH by exact Hb.
  destruct (d =? 1) eqn:E; [|reflexivity].
  apply Nat.eqb_eq in E. f_equal. lia.
Qed.

Lemma clamp_ones (r : list nat) :
  clamp (repeat 1 (length r)) r = repeat 0 (length r).
Proof.
  induction r as [|i r IH]; simpl; [reflexivity|]. now rewrite IH.
Qed.

Lemma clamp_app (s1 s2 i1 i2 : list nat) :
  length i1 = length s1 ->
  clamp (s1 ++ s2) (i1 ++ i2) = clamp s1 i1 ++ clamp s2 i2.
Proof.
  revert i1. induction s1 as [|d s1 IH]; intros [|i i1]; simpl;
    try discriminate.
  - reflexivity.
  - intros Hl. rewrite IH by lia. reflexivity.
Qed.

Lemma bidx_same_rank (s idx : list nat) :
  length idx = length s -> bidx s idx = clamp s idx.
Proof.
  intros E. unfold bidx. now rewrite E, Nat.sub_diag.
Qed.

Lemma numel_ones (k : nat) : numel (repeat 1 k) = 1.
Proof.
  induction k as [|k IH]; [reflexivity|].
  simpl repeat. rewrite numel_cons, IH. reflexivity.
Qed.

Lemma ravel_ones (k : nat) :
  ravel (repeat 1 k) (repeat 0 k) = 0.
Proof.
  induction k as [|k IH]; simpl; [reflexivity|]. exact IH.
Qed.

Lemma ravel_append_ones (s idx : list nat) (k : nat) :
  length idx = length s ->
  ravel (s ++ repeat 1 k) (idx ++ repeat 0 k) = ravel s idx.
Proof.
  revert idx. induction s as [|d s IH]; intros [|i idx]; simpl;
    try discriminate.
  - intros _. apply ravel_ones.
  - intros Hl. rewrite IH by lia.
    now rewrite numel_app, numel_ones, Nat.mul_1_r.
Qed.

Section Unsqueeze.
Context {A : Type} `{Num A}.

Lemma append_ones_zero (t : tensor A) : append_ones t 0 = t.
Proof.
  destruct t as [s l]. unfold append_ones. simpl. now rewrite app_nil_r.
Qed.

Lemma append_ones_succ (t : tensor A) (k : nat) :
  append_ones (append_ones t 1) k = append_ones t (S k).
Proof.
  unfold append_ones. simpl. now rewrite <- app_assoc.
Qed.

Lemma get_append_ones (t : tensor A) (k : nat) (idx : list nat) :
  length idx = length (shape t) ->
  get (append_ones t k) (idx ++ repeat 0 k) = get t idx.
Proof.
  intros Hl. unfold get, append_ones. simpl.
  now rewrite ravel_append_ones.
Qed.

(** [unsqueeze(-1)] appends one dimension of size one and never fails. *)
Lemma unsqueeze_last (t : tensor A) :
  unsqueeze t (-1) = Ok (append_ones t 1).
Proof.
  unfold unsqueeze, append_ones, dim.
  replace ((- (Z.of_nat (length (shape t)) + 1) <=? -1)%Z) with true
    by (symmetry; apply Z.leb_le; lia).
  replace ((-1 <=? Z.of_nat (length (shape t)))%Z) with true
    by (symmetry; apply Z.leb_le; lia).
  simpl andb. cbv iota.
  replace (-1 <? 0)%Z with true by reflexivity.
  replace (Z.to_nat (-1 + Z.of_nat (length (shape t)) + 1))
    with (length (shape t)) by lia.
  now rewrite firstn_all, skipn_all.
Qed.

Lemma unsqueeze_loop_ok (n : nat) (gammas betas : tensor A) :
  unsqueeze_loop n gammas betas =
    Ok (append_ones gammas n, append_ones betas n).
Proof.
  revert gammas betas. induction n as [|n IH]; intros g b; simpl.
  - now rewrite !append_ones_zero.
  - rewrite !unsqueeze_last. simpl. rewrite IH.
    now rewrite !append_ones_succ.
Qed.

(** The loop only reshapes: [FiLM.forward] is the product and the sum of
    the tensor library on the reshaped operands. *)
Lemma FiLM_forward_unfold (input gammas betas : tensor A) :
  FiLM_forward input gammas betas =
    let k := Z.to_nat (Z.of_nat (dim input) - 2) in
    p <- tmul (append_ones gammas k) input ;;
    tadd p (append_ones betas k).
Proof.
  unfold FiLM_forward, range_len. now rewrite unsqueeze_loop_ok.
Qed.

End Unsqueeze.

Lemma bidx_in_bounds (s idx : list nat) :
  in_bounds s idx = true -> bidx s idx = idx.
Proof.
  intros Hb. rewrite bidx_same_rank by now apply in_bounds_length.
  now apply clamp_in_bounds.
Qed.

Lemma bidx_trailing_ones (s i r : list nat) :
  in_bounds s i = true ->
  bidx (s ++ repeat 1 (length r)) (i ++ r) = i ++ repeat 0 (length r).
Proof.
  intros Hb. pose proof (in_bounds_length _ _ Hb) as Hl.
  rewrite bidx_same_rank
    by (rewrite !length_app, repeat_length; lia).
  rewrite clamp_app by exact Hl.
  now rewrite clamp_in_bounds, clamp_ones.
Qed.

(** ** FiLM.forward *)

Section FiLMForward.
Context {A : Type} `{Num A}.

Lemma binop_ok (op : A -> A -> A) (a b : tensor A) (s : list nat) :
  broadcast_shapes (shape a) (shape b) = Some s ->
  binop op a b =
    Ok (build s (fun idx =>
          op (get a (bidx (shape a) idx)) (get b (bidx (shape b) idx)))).
Proof. intros E. unfold binop. now rewrite E. Qed.

Lemma binop_fail (op : A -> A -> A) (a b : tensor A) :
  broadcast_shapes (shape a) (shape b) = None ->
  binop op a b = Raise RuntimeError.
Proof. intros E. unfold binop. now rewrite E. Qed.

Lemma broadcast_modulation (N C : nat) (rest : list nat) :
  broadcast_shapes ([N; C] ++ repeat 1 (length rest)) (N :: C :: rest)
    = Some (N :: C :: rest) /\
  broadcast_shapes (N :: C :: rest) ([N; C] ++ repeat 1 (length rest))
    = Some (N :: C :: rest).
Proof.
  split.
  - rewrite broadcast_shapes_same_rank
      by (simpl; now rewrite repeat_length).
    simpl. now rewrite !broadcast_dim_refl, broadcast_zip_ones_l.
  - rewrite broadcast_shapes_same_rank
      by (simpl; now rewrite repeat_length).
    simpl. now rewrite !broadcast_dim_refl, broadcast_zip_ones_r.
Qed.

Lemma in_bounds_modulation (N C n c : nat) (rest r : list nat) :
  in_bounds (N :: C :: rest) (n :: c :: r) = true ->
  in_bounds [N; C] [n; c] = true /\ length r = length rest.
Proof.
  simpl. rewrite !andb_true_iff. intros [Hn [Hc Hr]].
  split; [now rewrite Hn, Hc | now apply in_bounds_length].
Qed.

(** The modulation on operands of the documented shapes. *)
Lemma FiLM_forward_elements (input gammas betas : tensor A)
  (N C : nat) (rest : list nat) :
  shape input = N :: C :: rest ->
  shape gammas = [N; C] ->
  shape betas = [N; C] ->
  exists output,
    FiLM_forward input gammas betas = Ok output /\
    shape output = shape input /\
    wf output /\
    forall n c r,
      in_bounds (N :: C :: rest) (n :: c :: r) = true ->
      get output (n :: c :: r) =
        add (mul (get gammas [n; c]) (get input (n :: c :: r)))
            (get betas [n; c]).
Proof.
  intros Hi Hg Hb.
  destruct (broadcast_modulation N C rest) as [B1 B2].
  rewrite FiLM_forward_unfold. cbv zeta.
  replace (Z.to_nat (Z.of_nat (dim input) - 2)) with (length rest)
    by (unfold dim; rewrite Hi; cbn [length]; lia).
  unfold tmul, tadd.
  rewrite (@binop_ok mul (append_ones gammas (length rest)) input
             (N :: C :: rest))
    by (unfold append_ones; simpl; now rewrite Hg, Hi).
  simpl bind.
  rewrite (@binop_ok add _ (append_ones betas (length rest))
             (N :: C :: rest))
    by (unfold append_ones; simpl; now rewrite Hb).
  eexists. split; [reflexivity|]. split; [now rewrite Hi|].
  split; [apply build_wf|].
  intros n c r Hin.
  destruct (in_bounds_modulation _ _ _ _ _ _ Hin) as [Hnc Hr].
  rewrite get_build by exact Hin.
  rewrite build_shape, (bidx_in_bounds _ _ Hin).
  rewrite get_build by exact Hin.
  rewrite Hi, (bidx_in_bounds _ _ Hin).
  unfold get, append_ones. cbn [shape data]. rewrite Hg, Hb, <- Hr.
  change (n :: c :: r) with ([n; c] ++ r) at 1 3.
  rewrite !(bidx_trailing_ones _ _ r Hnc).
  now rewrite !ravel_append_ones by reflexivity.
Qed.

End FiLMForward.

(** C3: for an input of shape (N, C, ...) and scale and shift of shape (N, C),
    forward returns a tensor of the shape of the input with
    output[n, c, ...] = scale[n, c] * input[n, c, ...] + shift[n, c]; with a
    scale of ones and a shift of zeros the input comes back unchanged; and
    with an input of shape (1,1,2,2) filled with 5, scale [[2]] and shift
    [[1]] every element of the output is 11. *)
Theorem FiLM_forward_spec :
  (forall (A : Type) (NA : Num A) (input gammas betas : tensor A)
          (N C : nat) (rest : list nat),
      shape input = N :: C :: rest ->
      shape gammas = [N; C] ->
      shape betas = [N; C] ->
      exists output,
        FiLM_forward input gammas betas = Ok output /\
        shape output = shape input /\
        wf output /\
        forall n c r,
          in_bounds (N :: C :: rest) (n :: c :: r) = true ->
          get output (n :: c :: r) =
            add (mul (get gammas [n; c]) (get input (n :: c :: r)))
                (get betas [n; c])) /\
  (forall (A : Type) (NA : Num A) (NU : NumUnit NA) (input : tensor A)
          (N C : nat) (rest : list nat),
      wf input ->
      shape input = N :: C :: rest ->
      FiLM_forward input (full [N; C] one) (full [N; C] zero) = Ok input) /\
  FiLM_forward (full [1; 1; 2; 2] 5%Z) (tensorZ [1; 1] [2%Z])
    (tensorZ [1; 1] [1%Z]) = Ok (full [1; 1; 2; 2] 11%Z).
Proof.
  split; [|split; [|reflexivity]].
  - intros A NA input gammas betas N C rest.
    apply FiLM_forward_elements.
  - intros A NA NU input N C rest W Hi.
    destruct (@FiLM_forward_elements A NA input (full [N; C] one)
                (full [N; C] zero) N C rest Hi eq_refl eq_refl)
      as [out [E [Hs [Wo Hg]]]].
    rewrite E. f_equal.
    apply tensor_ext; try assumption.
    intros idx Hin. rewrite Hs, Hi in Hin.
    destruct idx as [|n [|c r]]; try discriminate.
    { simpl in Hin. now rewrite andb_false_r in Hin. }
    rewrite (Hg n c r Hin).
    destruct (in_bounds_modulation _ _ _ _ _ _ Hin) as [Hnc _].
    rewrite !full_get by exact Hnc.
    now rewrite mul_one_l, add_zero_r.
Qed.

Lemma FiLM_forward_spec_witness :
  exists output,
    FiLM_forward (tensorZ [1; 2; 3] [1; 2; 3; 4; 5; 6]%Z)
      (tensorZ [1; 2] [10; 100]%Z) (tensorZ [1; 2] [7; 8]%Z) = Ok output /\
    shape output = [1; 2; 3] /\
    get output [0; 1; 2] = 608%Z.
Proof.
  destruct (proj1 FiLM_forward_spec Z _
              (tensorZ [1; 2; 3] [1; 2; 3; 4; 5; 6]%Z)
              (tensorZ [1; 2] [10; 100]%Z) (tensorZ [1; 2] [7; 8]%Z)
              1 2 [3] eq_refl eq_refl eq_refl) as [out [E [Hs [_ Hg]]]].
  exists out. split; [exact E|]. split; [exact Hs|].
  exact (Hg 0 1 [2] eq_refl).
Defined.

(** C10: forward validates no shape itself; the number of dimensions of
    size one appended to gammas and betas is input.dim() - 2 and depends on
    the rank of the input alone; for an input of rank at most 2 the loop
    runs zero times and the result is gammas * input + betas under
    broadcasting, so an input of shape (C,) with gammas and betas of shape
    (N, C) gives an output of shape (N, C), not an error. *)
Theorem FiLM_forward_low_rank :
  (forall (A : Type) (NA : Num A) (input gammas betas : tensor A),
      unsqueeze_loop (range_len (Z.of_nat (dim input) - 2)) gammas betas
        = Ok (append_ones gammas (dim input - 2),
              append_ones betas (dim input - 2)) /\
      FiLM_forward input gammas betas =
        (p <- tmul (append_ones gammas (dim input - 2)) input ;;
         tadd p (append_ones betas (dim input - 2)))) /\
  (forall (A : Type) (NA : Num A) (input gammas betas : tensor A),
      dim input <= 2 ->
      range_len (Z.of_nat (dim input) - 2) = 0 /\
      FiLM_forward input gammas betas =
        (p <- tmul gammas input ;; tadd p betas)) /\
  (forall (A : Type) (NA : Num A) (input gammas betas : tensor A)
          (N C : nat),
      shape input = [C] ->
      shape gammas = [N; C] ->
      shape betas = [N; C] ->
      exists output,
        FiLM_forward input gammas betas = Ok output /\
        shape output = [N; C] /\
        forall n c, n < N -> c < C ->
          get output [n; c] =
            add (mul (get gammas [n; c]) (get input [c]))
                (get betas [n; c])).
Proof.
  assert (Hk : forall (A : Type) (t : tensor A),
             Z.to_nat (Z.of_nat (dim t) - 2) = dim t - 2) by (intros; lia).
  split; [|split].
  - intros A NA input gammas betas. split.
    + unfold range_len. rewrite unsqueeze_loop_ok. now rewrite Hk.
    + rewrite FiLM_forward_unfold. cbv zeta. now rewrite Hk.
  - intros A NA input gammas betas Hd. split.
    + unfold range_len. lia.
    + rewrite FiLM_forward_unfold. cbv zeta. rewrite Hk.
      replace (dim input - 2) with 0 by lia.
      now rewrite !append_ones_zero.
  - intros A NA input gammas betas N C Hi Hg Hb.
    rewrite FiLM_forward_unfold. cbv zeta. rewrite Hk.
    replace (dim input - 2) with 0 by (unfold dim; rewrite Hi; reflexivity).
    rewrite !append_ones_zero. unfold tmul, tadd.
    rewrite (@binop_ok A NA mul gammas input [N; C]).
    2:{ rewrite Hg, Hi. unfold broadcast_shapes. simpl.
        now rewrite broadcast_dim_one_r, broadcast_dim_refl. }
    simpl bind.
    rewrite (@binop_ok A NA add _ betas [N; C]).
    2:{ rewrite Hb, build_shape. rewrite broadcast_shapes_same_rank
          by reflexivity. apply broadcast_zip_refl. }
    eexists. split; [reflexivity|]. split; [reflexivity|].
    intros n c Hn Hc.
    assert (Hin : in_bounds [N; C] [n; c] = true)
      by (simpl; apply Nat.ltb_lt in Hn, Hc; now rewrite Hn, Hc).
    assert (Hinc : in_bounds [C] [c] = true)
      by (simpl; apply Nat.ltb_lt in Hc; now rewrite Hc).
    rewrite get_build by exact Hin.
    rewrite build_shape, Hb, (bidx_in_bounds _ _ Hin).
    rewrite get_build by exact Hin.
    rewrite Hg, Hi, (bidx_in_bounds _ _ Hin).
    unfold bidx. cbn [length Nat.sub skipn].
    now rewrite (clamp_in_bounds _ _ Hinc).
Qed.

Lemma FiLM_forward_low_rank_witness :
  exists output,
    FiLM_forward (tensorZ [3] [1; 2; 3]%Z)
      (tensorZ [2; 3] [1; 2; 3; 4; 5; 6]%Z)
      (tensorZ [2; 3] [10; 20; 30; 40; 50; 60]%Z) = Ok output /\
    shape output = [2; 3] /\
    get output [1; 2] = 78%Z.
Proof.
  destruct (proj2 (proj2 FiLM_forward_low_rank) Z _
              (tensorZ [3] [1; 2; 3]%Z)
              (tensorZ [2; 3] [1; 2; 3; 4; 5; 6]%Z)
              (tensorZ [2; 3] [10; 20; 30; 40; 50; 60]%Z)
              2 3 eq_refl eq_refl eq_refl) as [out [E [Hs Hg]]].
  exists out. split; [exact E|]. split; [exact Hs|].
  apply (Hg 1 2); lia.
Defined.

(** A scale of rank 1 and a shift whose two dimensions are not those of the
    input are accepted: the call returns a tensor, it does not fail with
    ShapeMismatch. *)
Lemma FiLM_forward_accepts_other_shapes :
  let input := tensorZ [2; 3; 2] [1; 2; 3; 4; 5; 6; 7; 8; 9; 10; 11; 12]%Z in
  let gammas := tensorZ [3] [1; 2; 3]%Z in
  let betas := tensorZ [1; 1] [10]%Z in
  dim gammas <> 2 /\
  firstn 2 (shape betas) <> firstn 2 (shape input) /\
  FiLM_forward input gammas betas
    = Ok (tensorZ [2; 3; 2]
            [11; 12; 16; 18; 25; 28; 17; 18; 28; 30; 43; 46]%Z) /\
  FiLM_forward input gammas betas <> Raise ShapeMismatch.
Proof.
  cbv zeta. split; [|split; [|split]].
  - cbv. discriminate.
  - cbv. discriminate.
  - reflexivity.
  - discriminate.
Qed.

(** C5, as the code has it: forward checks nothing itself.  It fails only
    when the broadcasting of the tensor library refuses the shapes of the
    unsqueezed gammas against the input, or of their product against the
    unsqueezed betas, and then with the RuntimeError of the library; in
    every other case it returns a tensor.  In particular gammas or betas of
    shape (N', C') where N' or C' differs from the size of the input and
    neither of the two sizes is 1 make the call fail. *)
Theorem FiLM_forward_failure :
  (forall (A : Type) (NA : Num A) (input gammas betas : tensor A),
      let k := dim input - 2 in
      match broadcast_shapes (shape gammas ++ repeat 1 k) (shape input) with
      | Some s =>
          match broadcast_shapes s (shape betas ++ repeat 1 k) with
          | Some s' =>
              exists output,
                FiLM_forward input gammas betas = Ok output /\
                shape output = s'
          | None => FiLM_forward input gammas betas = Raise RuntimeError
          end
      | None => FiLM_forward input gammas betas = Raise RuntimeError
      end) /\
  (forall (A : Type) (NA : Num A) (input gammas betas : tensor A)
          (N C N' C' : nat) (rest : list nat),
      shape input = N :: C :: rest ->
      (shape gammas = [N'; C'] \/
       shape gammas = [N; C] /\ shape betas = [N'; C']) ->
      (N' <> N /\ N' <> 1 /\ N <> 1) \/ (C' <> C /\ C' <> 1 /\ C <> 1) ->
      FiLM_forward input gammas betas = Raise RuntimeError).
Proof.
  assert (Hk : forall (A : Type) (t : tensor A),
             Z.to_nat (Z.of_nat (dim t) - 2) = dim t - 2) by (intros; lia).
  assert (Hfail : forall (N C N' C' : nat) (r1 r2 : list nat),
             (N' <> N /\ N' <> 1 /\ N <> 1) \/
             (C' <> C /\ C' <> 1 /\ C <> 1) ->
             length r1 = length r2 ->
             broadcast_shapes (N' :: C' :: r1) (N :: C :: r2) = None /\
             broadcast_shapes (N :: C :: r2) (N' :: C' :: r1) = None).
  { intros N C N' C' r1 r2 Hne Hl.
    rewrite !broadcast_shapes_same_rank by (simpl; lia). simpl.
    destruct Hne as [[H1 [H2 H3]] | [H1 [H2 H3]]].
    - rewrite (broadcast_dim_none H1 H2 H3).
      rewrite (@broadcast_dim_none N N') by congruence. now split.
    - rewrite (broadcast_dim_none H1 H2 H3).
      rewrite (@broadcast_dim_none C C') by congruence.
      split.
      + now destruct (broadcast_dim N' N).
      + now destruct (broadcast_dim N N'). }
  split.
  - intros A NA input gammas betas. cbv zeta.
    rewrite FiLM_forward_unfold. cbv zeta. rewrite Hk.
    unfold tmul, tadd, binop, append_ones. cbn [shape data].
    destruct (broadcast_shapes (shape gammas ++ repeat 1 (dim input - 2))
                (shape input)) as [s|]; [|reflexivity].
    simpl bind. cbn [shape data].
    destruct (broadcast_shapes s (shape betas ++ repeat 1 (dim input - 2)))
      as [s'|]; [|reflexivity].
    eexists. split; reflexivity.
  - intros A NA input gammas betas N C N' C' rest Hi Hgb Hne.
    rewrite FiLM_forward_unfold. cbv zeta. rewrite Hk.
    replace (dim input - 2) with (length rest)
      by (unfold dim; rewrite Hi; simpl; lia).
    unfold tmul, tadd.
    destruct Hgb as [Hg | [Hg Hb]].
    + rewrite binop_fail; [reflexivity|].
      unfold append_ones. cbn [shape]. rewrite Hg, Hi.
      apply (proj1 (Hfail N C N' C' (repeat 1 (length rest)) rest Hne
                      (repeat_length 1 (length rest)))).
    + destruct (broadcast_modulation N C rest) as [B1 _].
      rewrite (@binop_ok A NA mul _ input (N :: C :: rest))
        by (unfold append_ones; cbn [shape]; now rewrite Hg, Hi).
      simpl bind. rewrite binop_fail; [reflexivity|].
      unfold append_ones. cbn [shape]. rewrite build_shape, Hb.
      apply (proj2 (Hfail N C N' C' (repeat 1 (length rest)) rest Hne
                      (repeat_length 1 (length rest)))).
Qed.

Lemma FiLM_forward_failure_witness :
  FiLM_forward (tensorZ [2; 3; 2] [1; 2; 3; 4; 5; 6; 7; 8; 9; 10; 11; 12]%Z)
    (tensorZ [4; 3] (repeat 1%Z 12)) (tensorZ [2; 3] (repeat 0%Z 6))
    = Raise RuntimeError.
Proof.
  apply (proj2 FiLM_forward_failure Z _
           (tensorZ [2; 3; 2] [1; 2; 3; 4; 5; 6; 7; 8; 9; 10; 11; 12]%Z)
           (tensorZ [4; 3] (repeat 1%Z 12)) (tensorZ [2; 3] (repeat 0%Z 6))
           2 3 4 3 [2] eq_refl).
  - left. reflexivity.
  - left. lia.
Defined.

(** ** Construction and initialisation *)

Section InitFacts.
Variable rng : Type.
Variable next_unit : rng -> R * rng.
Variable junk : nat -> R.

Lemma draws_length (n : nat) (lo hi : R) (g : rng) :
  length (fst (draws next_unit n lo hi g)) = n.
Proof.
  revert g. induction n as [|n IH]; intros g; simpl.
  - reflexivity.
  - destruct (next_unit g) as [u g1]. specialize (IH g1).
    destruct (draws next_unit n lo hi g1) as [l g2]. simpl in *.
    now rewrite IH.
Qed.

Lemma uniform_eq (t : tensor R) (lo hi : R) (w : world rng) :
  uniform_ next_unit t lo hi w =
    (Ok {| shape := shape t;
           data := fst (draws next_unit (length (data t)) lo hi (gen w)) |},
     {| gen := snd (draws next_unit (length (data t)) lo hi (gen w));
        allocated := allocated w |}).
Proof.
  unfold uniform_.
  now destruct (draws next_unit (length (data t)) lo hi (gen w)).
Qed.

Lemma torch_Tensor_ok (sizes : list Z) (w : world rng) :
  Forall (fun z => (0 <= z)%Z) sizes ->
  torch_Tensor junk sizes w =
    (Ok {| shape := map Z.to_nat sizes;
           data := map junk (seq 0 (numel (map Z.to_nat sizes))) |},
     {| gen := gen w; allocated := map Z.to_nat sizes :: allocated w |}).
Proof.
  intros Hs. unfold torch_Tensor.
  replace (forallb (fun z => (0 <=? z)%Z) sizes) with true; [reflexivity|].
  symmetry. apply forallb_forall. intros z Hz.
  rewrite Forall_forall in Hs. apply Z.leb_le. now apply Hs.
Qed.

Lemma torch_Tensor_negative (sizes : list Z) (w : world rng) :
  forallb (fun z => (0 <=? z)%Z) sizes = false ->
  torch_Tensor junk sizes w = (Raise RuntimeError, w).
Proof. intros E. unfold torch_Tensor. now rewrite E. Qed.

Lemma fresh_wf (s : list nat) :
  wf {| shape := s; data := map junk (seq 0 (numel s)) |}.
Proof. unfold wf. simpl. now rewrite length_map, length_seq. Qed.

Lemma stdv_of_pos (t : tensor R) (n : nat) :
  nth_error (shape t) 1 = Some n -> 0 < n ->
  stdv_of t = Ok (1 / sqrt (INR n))%R.
Proof.
  intros E Hn. unfold stdv_of, size. rewrite E. simpl. unfold float_div.
  destruct (Req_dec_T (sqrt (INR n)) 0) as [E0|_]; [|reflexivity].
  exfalso. apply sqrt_eq_0 in E0; [|apply pos_INR].
  apply (lt_INR 0 n) in Hn. simpl in Hn. lra.
Qed.

Lemma stdv_of_zero (t : tensor R) :
  nth_error (shape t) 1 = Some 0 ->
  stdv_of t = Raise ZeroDivisionError.
Proof.
  intros E. unfold stdv_of, size. rewrite E. simpl. unfold float_div.
  destruct (Req_dec_T (sqrt 0) 0) as [_|N]; [reflexivity|].
  now elim N; apply sqrt_0.
Qed.

Lemma stdv_of_no_config (t : tensor R) :
  stdv_of t <> Raise ConfigurationError.
Proof.
  unfold stdv_of, size. destruct (nth_error (shape t) 1); simpl.
  - unfold float_div. now destruct (Req_dec_T _ 0).
  - discriminate.
Qed.

Lemma uniform_filled (t : tensor R) (lo hi : R) (w : world rng) :
  exists t' w',
    uniform_ next_unit t lo hi w = (Ok t', w') /\
    allocated w' = allocated w /\
    shape t' = shape t /\
    length (data t') = length (data t) /\
    filled next_unit lo hi t'.
Proof.
  rewrite uniform_eq. eexists. eexists. split; [reflexivity|].
  split; [reflexivity|]. split; [reflexivity|]. split.
  - cbn [data]. apply draws_length.
  - exists (gen w). cbn [data]. now rewrite draws_length.
Qed.

(** [reset_parameters] once the bound is known: the weight and the bias,
    when there is one, are refilled; nothing else changes. *)
Lemma Linear_reset_ok (m : Linear R) (s : R) (w : world rng) :
  stdv_of (weight m) = Ok s ->
  exists m' w',
    Linear_reset_parameters next_unit m w = (Ok m', w') /\
    allocated w' = allocated w /\
    in_features m' = in_features m /\
    out_features m' = out_features m /\
    shape (weight m') = shape (weight m) /\
    length (data (weight m')) = length (data (weight m)) /\
    filled next_unit (- s) s (weight m') /\
    match bias m, bias m' with
    | Some b, Some b' =>
        shape b' = shape b /\ length (data b') = length (data b) /\
        filled next_unit (- s) s b'
    | None, None => True
    | _, _ => False
    end.
Proof.
  intros Es. unfold Linear_reset_parameters, mbind, lift. rewrite Es.
  destruct (uniform_filled (weight m) (- s) s w)
    as [wt [w1 [E1 [Ha1 [Hs1 [Hl1 Hf1]]]]]].
  rewrite E1. destruct (bias m) as [b|].
  - destruct (uniform_filled b (- s) s w1)
      as [bt [w2 [E2 [Ha2 [Hs2 [Hl2 Hf2]]]]]].
    rewrite E2. unfold ret. eexists. eexists. split; [reflexivity|].
    cbn. repeat split; try assumption. congruence.
  - unfold ret. eexists. eexists. split; [reflexivity|].
    cbn. repeat split; assumption.
Qed.

Lemma Linear_reset_fail (m : Linear R) (e : error) (w : world rng) :
  stdv_of (weight m) = Raise e ->
  Linear_reset_parameters next_unit m w = (Raise e, w).
Proof.
  intros Es. unfold Linear_reset_parameters, mbind, lift. now rewrite Es.
Qed.

Lemma Bilinear_reset_ok (m : Bilinear R) (s : R) (w : world rng) :
  stdv_of (bil_weight m) = Ok s ->
  exists m' w',
    Bilinear_reset_parameters next_unit m w = (Ok m', w') /\
    allocated w' = allocated w /\
    in1_features m' = in1_features m /\
    in2_features m' = in2_features m /\
    bil_out_features m' = bil_out_features m /\
    shape (bil_weight m') = shape (bil_weight m) /\
    length (data (bil_weight m')) = length (data (bil_weight m)) /\
    filled next_unit (- s) s (bil_weight m') /\
    match bil_bias m, bil_bias m' with
    | Some b, Some b' =>
        shape b' = shape b /\ length (data b') = length (data b) /\
        filled next_unit (- s) s b'
    | None, None => True
    | _, _ => False
    end.
Proof.
  intros Es. unfold Bilinear_reset_parameters, mbind, lift. rewrite Es.
  destruct (uniform_filled (bil_weight m) (- s) s w)
    as [wt [w1 [E1 [Ha1 [Hs1 [Hl1 Hf1]]]]]].
  rewrite E1. destruct (bil_bias m) as [b|].
  - destruct (uniform_filled b (- s) s w1)
      as [bt [w2 [E2 [Ha2 [Hs2 [Hl2 Hf2]]]]]].
    rewrite E2. unfold ret. eexists. eexists. split; [reflexivity|].
    cbn. repeat split; try assumption. congruence.
  - unfold ret. eexists. eexists. split; [reflexivity|].
    cbn. repeat split; assumption.
Qed.

Lemma Bilinear_reset_fail (m : Bilinear R) (e : error) (w : world rng) :
  stdv_of (bil_weight m) = Raise e ->
  Bilinear_reset_parameters next_unit m w = (Raise e, w).
Proof.
  intros Es. unfold Bilinear_reset_parameters, mbind, lift. now rewrite Es.
Qed.

Lemma INR_to_nat (z : Z) : (0 <= z)%Z -> INR (Z.to_nat z) = IZR z.
Proof. intros Hz. now rewrite INR_IZR_INZ, Z2Nat.id. Qed.

(** The shapes allocated by a constructor, latest first. *)
Lemma Linear_init_ok (in_f out_f : Z) (hb : bool) (w : world rng) :
  (0 < in_f)%Z -> (0 <= out_f)%Z ->
  exists m w',
    Linear_init next_unit junk in_f out_f hb w = (Ok m, w') /\
    in_features m = in_f /\
    out_features m = out_f /\
    shape (weight m) = [Z.to_nat out_f; Z.to_nat in_f] /\
    wf (weight m) /\
    filled next_unit (- (1 / sqrt (IZR in_f))) (1 / sqrt (IZR in_f))
      (weight m) /\
    match bias m with
    | Some b =>
        hb = true /\ shape b = [Z.to_nat out_f] /\ wf b /\
        filled next_unit (- (1 / sqrt (IZR in_f))) (1 / sqrt (IZR in_f)) b
    | None => hb = false
    end.
Proof.
  intros Hin Hout. unfold Linear_init, mbind.
  rewrite torch_Tensor_ok by (repeat constructor; lia).
  set (w0 := {| shape := map Z.to_nat [out_f; in_f];
                data := map junk (seq 0 (numel (map Z.to_nat [out_f; in_f]))) |}).
  assert (Es : forall b : option (tensor R),
             stdv_of (weight {| in_features := in_f; out_features := out_f;
                                weight := w0; bias := b |})
             = Ok (1 / sqrt (IZR in_f))%R).
  { intros b. rewrite <- (INR_to_nat (z := in_f)) by lia.
    apply stdv_of_pos; [reflexivity | lia]. }
  destruct hb.
  - rewrite torch_Tensor_ok by (repeat constructor; lia). unfold ret.
    match goal with
    | |- context [Linear_reset_parameters _ ?m ?w1] =>
        destruct (Linear_reset_ok m w1 (Es (bias m)))
          as [m' [w' [E [_ [Hi [Ho [Hs [Hl [Hf Hb]]]]]]]]]
    end.
    exists m', w'. split; [exact E|]. cbn in Hi, Ho, Hs, Hl, Hb.
    repeat split; try assumption.
    + unfold wf. rewrite Hs, Hl. now rewrite length_map, length_seq.
    + destruct (bias m') as [b'|]; [|contradiction].
      destruct Hb as [Hsb [Hlb Hfb]]. repeat split; try assumption.
      unfold wf. rewrite Hsb, Hlb. now rewrite length_map, length_seq.
  - unfold ret.
    match goal with
    | |- context [Linear_reset_parameters _ ?m ?w1] =>
        destruct (Linear_reset_ok m w1 (Es (bias m)))
          as [m' [w' [E [_ [Hi [Ho [Hs [Hl [Hf Hb]]]]]]]]]
    end.
    exists m', w'. split; [exact E|]. cbn in Hi, Ho, Hs, Hl, Hb.
    repeat split; try assumption.
    + unfold wf. rewrite Hs, Hl. now rewrite length_map, length_seq.
    + destruct (bias m') as [b'|]; [contradiction|reflexivity].
Qed.

Lemma Linear_init_zero (out_f : Z) (hb : bool) (w : world rng) :
  (0 <= out_f)%Z ->
  Linear_init next_unit junk 0 out_f hb w =
    (Raise ZeroDivisionError,
     {| gen := gen w;
        allocated :=
          (if hb then [[Z.to_nat out_f]] else []) ++
          [Z.to_nat out_f; 0] :: allocated w |}).
Proof.
  intros Hout. unfold Linear_init, mbind.
  rewrite torch_Tensor_ok by (repeat constructor; lia).
  destruct hb.
  - rewrite torch_Tensor_ok by (repeat constructor; lia). unfold ret.
    now rewrite (@Linear_reset_fail _ ZeroDivisionError)
      by (apply stdv_of_zero; reflexivity).
  - unfold ret.
    now rewrite (@Linear_reset_fail _ ZeroDivisionError)
      by (apply stdv_of_zero; reflexivity).
Qed.

Lemma Linear_reset_no_config (m : Linear R) (w : world rng) :
  fst (Linear_reset_parameters next_unit m w) <> Raise ConfigurationError.
Proof.
  destruct (stdv_of (weight m)) as [s|e] eqn:Es.
  - destruct (Linear_reset_ok m w Es) as [m' [w' [E _]]].
    rewrite E. discriminate.
  - rewrite (Linear_reset_fail m w Es). simpl. intros N.
    apply (@stdv_of_no_config (weight m)). congruence.
Qed.

Lemma Linear_init_no_config (in_f out_f : Z) (hb : bool) (w : world rng) :
  fst (Linear_init next_unit junk in_f out_f hb w)
    <> Raise ConfigurationError.
Proof.
  unfold Linear_init, mbind, torch_Tensor at 1.
  destruct (forallb _ [out_f; in_f]); [|discriminate].
  destruct hb.
  - unfold torch_Tensor.
    destruct (forallb _ [out_f]); [|discriminate].
    unfold ret. apply Linear_reset_no_config.
  - unfold ret. apply Linear_reset_no_config.
Qed.

Lemma Bilinear_init_ok (in1_f in2_f out_f : Z) (hb : bool) (w : world rng) :
  (0 < in1_f)%Z -> (0 <= in2_f)%Z -> (0 <= out_f)%Z ->
  exists m w',
    Bilinear_init next_unit junk in1_f in2_f out_f hb w = (Ok m, w') /\
    in1_features m = in1_f /\
    in2_features m = in2_f /\
    bil_out_features m = out_f /\
    shape (bil_weight m) =
      [Z.to_nat out_f; Z.to_nat in1_f; Z.to_nat in2_f] /\
    wf (bil_weight m) /\
    filled next_unit (- (1 / sqrt (IZR in1_f))) (1 / sqrt (IZR in1_f))
      (bil_weight m) /\
    match bil_bias m with
    | Some b =>
        hb = true /\ shape b = [Z.to_nat out_f] /\ wf b /\
        filled next_unit (- (1 / sqrt (IZR in1_f))) (1 / sqrt (IZR in1_f)) b
    | None => hb = false
    end.
Proof.
  intros Hin1 Hin2 Hout. unfold Bilinear_init, mbind.
  rewrite torch_Tensor_ok by (repeat constructor; lia).
  set (w0 := {| shape := map Z.to_nat [out_f; in1_f; in2_f];
                data := map junk
                  (seq 0 (numel (map Z.to_nat [out_f; in1_f; in2_f]))) |}).
  assert (Es : forall b : option (tensor R),
             stdv_of (bil_weight {| in1_features := in1_f;
                                    in2_features := in2_f;
                                    bil_out_features := out_f;
                                    bil_weight := w0; bil_bias := b |})
             = Ok (1 / sqrt (IZR in1_f))%R).
  { intros b. rewrite <- (INR_to_nat (z := in1_f)) by lia.
    apply stdv_of_pos; [reflexivity | lia]. }
  destruct hb.
  - rewrite torch_Tensor_ok by (repeat constructor; lia). unfold ret.
    match goal with
    | |- context [Bilinear_reset_parameters _ ?m ?w1] =>
        destruct (Bilinear_reset_ok m w1 (Es (bil_bias m)))
          as [m' [w' [E [_ [Hi1 [Hi2 [Ho [Hs [Hl [Hf Hb]]]]]]]]]]
    end.
    exists m', w'. split; [exact E|]. cbn in Hi1, Hi2, Ho, Hs, Hl, Hb.
    repeat split; try assumption.
    + unfold wf. rewrite Hs, Hl. now rewrite length_map, length_seq.
    + destruct (bil_bias m') as [b'|]; [|contradiction].
      destruct Hb as [Hsb [Hlb Hfb]]. repeat split; try assumption.
      unfold wf. rewrite Hsb, Hlb. now rewrite length_map, length_seq.
  - unfold ret.
    match goal with
    | |- context [Bilinear_reset_parameters _ ?m ?w1] =>
        destruct (Bilinear_reset_ok m w1 (Es (bil_bias m)))
          as [m' [w' [E [_ [Hi1 [Hi2 [Ho [Hs [Hl [Hf Hb]]]]]]]]]]
    end.
    exists m', w'. split; [exact E|]. cbn in Hi1, Hi2, Ho, Hs, Hl, Hb.
    repeat split; try assumption.
    + unfold wf. rewrite Hs, Hl. now rewrite length_map, length_seq.
    + destruct (bil_bias m') as [b'|]; [contradiction|reflexivity].
Qed.

(** A constructed module has the weight shape of its configuration. *)
Lemma init_inv (hb : bool) (w : world rng) :
  (forall in_f out_f : Z,
      (0 < in_f)%Z -> (0 <= out_f)%Z ->
      exists m w',
        Linear_init next_unit junk in_f out_f hb w = (Ok m, w') /\
        Linear_inv m) /\
  (forall in1_f in2_f out_f : Z,
      (0 < in1_f)%Z -> (0 <= in2_f)%Z -> (0 <= out_f)%Z ->
      exists m w',
        Bilinear_init next_unit junk in1_f in2_f out_f hb w = (Ok m, w') /\
        Bilinear_inv m).
Proof.
  split.
  - intros in_f out_f Hin Hout.
    destruct (Linear_init_ok hb w Hin Hout)
      as [m [w' [E [Hi [Ho [Hs _]]]]]].
    exists m, w'. split; [exact E|].
    unfold Linear_inv. now rewrite Hi, Ho.
  - intros in1_f in2_f out_f Hin1 Hin2 Hout.
    destruct (Bilinear_init_ok hb w Hin1 Hin2 Hout)
      as [m [w' [E [Hi1 [Hi2 [Ho [Hs _]]]]]]].
    exists m, w'. split; [exact E|].
    unfold Bilinear_inv. now rewrite Hi1, Hi2, Ho.
Qed.

Lemma Bilinear_init_zero (in2_f out_f : Z) (hb : bool) (w : world rng) :
  (0 <= in2_f)%Z -> (0 <= out_f)%Z ->
  Bilinear_init next_unit junk 0 in2_f out_f hb w =
    (Raise ZeroDivisionError,
     {| gen := gen w;
        allocated :=
          (if hb then [[Z.to_nat out_f]] else []) ++
          [Z.to_nat out_f; 0; Z.to_nat in2_f] :: allocated w |}).
Proof.
  intros Hin2 Hout. unfold Bilinear_init, mbind.
  rewrite torch_Tensor_ok by (repeat constructor; lia).
  destruct hb.
  - rewrite torch_Tensor_ok by (repeat constructor; lia). unfold ret.
    now rewrite (@Bilinear_reset_fail _ ZeroDivisionError)
      by (apply stdv_of_zero; reflexivity).
  - unfold ret.
    now rewrite (@Bilinear_reset_fail _ ZeroDivisionError)
      by (apply stdv_of_zero; reflexivity).
Qed.

Lemma Bilinear_reset_no_config (m : Bilinear R) (w : world rng) :
  fst (Bilinear_reset_parameters next_unit m w) <> Raise ConfigurationError.
Proof.
  destruct (stdv_of (bil_weight m)) as [s|e] eqn:Es.
  - destruct (Bilinear_reset_ok m w Es) as [m' [w' [E _]]].
    rewrite E. discriminate.
  - rewrite (Bilinear_reset_fail m w Es). simpl. intros N.
    apply (@stdv_of_no_config (bil_weight m)). congruence.
Qed.

Lemma Bilinear_init_no_config (in1_f in2_f out_f : Z) (hb : bool)
  (w : world rng) :
  fst (Bilinear_init next_unit junk in1_f in2_f out_f hb w)
    <> Raise ConfigurationError.
Proof.
  unfold Bilinear_init, mbind, torch_Tensor at 1.
  destruct (forallb _ [out_f; in1_f; in2_f]); [|discriminate].
  destruct hb.
  - unfold torch_Tensor.
    destruct (forallb _ [out_f]); [|discriminate].
    unfold ret. apply Bilinear_reset_no_config.
  - unfold ret. apply Bilinear_reset_no_config.
Qed.

Lemma Linear_reset_bias (m m' : Linear R) (w w' : world rng) :
  Linear_reset_parameters next_unit m w = (Ok m', w') ->
  (bias m = None <-> bias m' = None) /\
  (forall b, bias m = Some b ->
     exists b', bias m' = Some b' /\ shape b' = shape b /\
                length (data b') = length (data b)).
Proof.
  intros E. destruct (stdv_of (weight m)) as [s|e] eqn:Es.
  - destruct (Linear_reset_ok m w Es)
      as [m2 [w2 [E2 [_ [_ [_ [_ [_ [_ Hb]]]]]]]]].
    rewrite E in E2. injection E2 as <- <-.
    destruct (bias m) as [b|], (bias m') as [b'|]; try contradiction.
    + split; [split; discriminate|].
      intros b0 [= <-]. exists b'. now destruct Hb as [? [? _]].
    + split; [tauto | discriminate].
  - rewrite (Linear_reset_fail m w Es) in E. discriminate.
Qed.

Lemma Bilinear_reset_bias (m m' : Bilinear R) (w w' : world rng) :
  Bilinear_reset_parameters next_unit m w = (Ok m', w') ->
  (bil_bias m = None <-> bil_bias m' = None) /\
  (forall b, bil_bias m = Some b ->
     exists b', bil_bias m' = Some b' /\ shape b' = shape b /\
                length (data b') = length (data b)).
Proof.
  intros E. destruct (stdv_of (bil_weight m)) as [s|e] eqn:Es.
  - destruct (Bilinear_reset_ok m w Es)
      as [m2 [w2 [E2 [_ [_ [_ [_ [_ [_ [_ Hb]]]]]]]]]].
    rewrite E in E2. injection E2 as <- <-.
    destruct (bil_bias m) as [b|], (bil_bias m') as [b'|];
      try contradiction.
    + split; [split; discriminate|].
      intros b0 [= <-]. exists b'. now destruct Hb as [? [? _]].
    + split; [tauto | discriminate].
  - rewrite (Bilinear_reset_fail m w Es) in E. discriminate.
Qed.

(** C7: a Linear or Bilinear built with has_bias = false has no bias
    tensor at all ([None], which forward tests to skip the addition); built
    with has_bias = true its bias has shape (out_features,).  This holds
    after construction, and reset_parameters, the one operation that
    writes to the module, keeps the presence and the shape of the bias. *)
Theorem bias_absent_or_shaped :
  (forall (in_f out_f : Z) (hb : bool) (w : world rng),
      (0 < in_f)%Z -> (0 <= out_f)%Z ->
      exists m w',
        Linear_init next_unit junk in_f out_f hb w = (Ok m, w') /\
        (hb = false -> bias m = None /\
           forall x, Linear_forward m x = F.linear x (weight m) None) /\
        (hb = true ->
           exists b, bias m = Some b /\ shape b = [Z.to_nat out_f])) /\
  (forall (in1_f in2_f out_f : Z) (hb : bool) (w : world rng),
      (0 < in1_f)%Z -> (0 <= in2_f)%Z -> (0 <= out_f)%Z ->
      exists m w',
        Bilinear_init next_unit junk in1_f in2_f out_f hb w = (Ok m, w') /\
        (hb = false -> bil_bias m = None /\
           forall x1 x2,
             Bilinear_forward m x1 x2 = F.bilinear x1 x2 (bil_weight m) None) /\
        (hb = true ->
           exists b, bil_bias m = Some b /\ shape b = [Z.to_nat out_f])) /\
  (forall (m m' : Linear R) (w w' : world rng),
      Linear_reset_parameters next_unit m w = (Ok m', w') ->
      (bias m = None <-> bias m' = None) /\
      (forall b, bias m = Some b ->
         exists b', bias m' = Some b' /\ shape b' = shape b)) /\
  (forall (m m' : Bilinear R) (w w' : world rng),
      Bilinear_reset_parameters next_unit m w = (Ok m', w') ->
      (bil_bias m = None <-> bil_bias m' = None) /\
      (forall b, bil_bias m = Some b ->
         exists b', bil_bias m' = Some b' /\ shape b' = shape b)).
Proof.
  split; [|split; [|split]].
  - intros in_f out_f hb w Hin Hout.
    destruct (Linear_init_ok hb w Hin Hout)
      as [m [w' [E [_ [_ [_ [_ [_ Hb]]]]]]]].
    exists m, w'. split; [exact E|].
    destruct (bias m) as [b|] eqn:Eb.
    + destruct Hb as [Hhb [Hs _]]. split; [congruence|].
      intros _. now exists b.
    + split; [|congruence]. intros _. split; [reflexivity|].
      intros x. unfold Linear_forward. now rewrite Eb.
  - intros in1_f in2_f out_f hb w Hin1 Hin2 Hout.
    destruct (Bilinear_init_ok hb w Hin1 Hin2 Hout)
      as [m [w' [E [_ [_ [_ [_ [_ [_ Hb]]]]]]]]].
    exists m, w'. split; [exact E|].
    destruct (bil_bias m) as [b|] eqn:Eb.
    + destruct Hb as [Hhb [Hs _]]. split; [congruence|].
      intros _. now exists b.
    + split; [|congruence]. intros _. split; [reflexivity|].
      intros x1 x2. unfold Bilinear_forward. now rewrite Eb.
  - intros m m' w w' E.
    destruct (Linear_reset_bias _ _ E) as [H1 H2]. split; [exact H1|].
    intros b Hb. destruct (H2 b Hb) as [b' [E' [Hs _]]]. now exists b'.
  - intros m m' w w' E.
    destruct (Bilinear_reset_bias _ _ E) as [H1 H2]. split; [exact H1|].
    intros b Hb. destruct (H2 b Hb) as [b' [E' [Hs _]]]. now exists b'.
Qed.

(** C6, as the code has it: the constructors validate nothing and never
    raise ConfigurationError.  The weight, and the bias when enabled, are
    allocated first; with in_features = 0 (in1_features = 0 for Bilinear)
    and the other counts not negative, construction then fails in
    reset_parameters with the ZeroDivisionError of 1. / math.sqrt(0). *)
Theorem init_no_validation :
  (forall (in_f out_f : Z) (hb : bool) (w : world rng),
      fst (Linear_init next_unit junk in_f out_f hb w)
        <> Raise ConfigurationError) /\
  (forall (in1_f in2_f out_f : Z) (hb : bool) (w : world rng),
      fst (Bilinear_init next_unit junk in1_f in2_f out_f hb w)
        <> Raise ConfigurationError) /\
  (forall (out_f : Z) (hb : bool) (w : world rng),
      (0 <= out_f)%Z ->
      Linear_init next_unit junk 0 out_f hb w =
        (Raise ZeroDivisionError,
         {| gen := gen w;
            allocated :=
              (if hb then [[Z.to_nat out_f]] else []) ++
              [Z.to_nat out_f; 0] :: allocated w |})) /\
  (forall (in2_f out_f : Z) (hb : bool) (w : world rng),
      (0 <= in2_f)%Z -> (0 <= out_f)%Z ->
      Bilinear_init next_unit junk 0 in2_f out_f hb w =
        (Raise ZeroDivisionError,
         {| gen := gen w;
            allocated :=
              (if hb then [[Z.to_nat out_f]] else []) ++
              [Z.to_nat out_f; 0; Z.to_nat in2_f] :: allocated w |})).
Proof.
  split; [|split; [|split]].
  - apply Linear_init_no_config.
  - apply Bilinear_init_no_config.
  - apply Linear_init_zero.
  - apply Bilinear_init_zero.
Qed.

Section Bounds.
Hypothesis next_unit_range :
  forall g, (0 <= fst (next_unit g) <= 1)%R.

Lemma draws_bounds (n : nat) (lo hi : R) (g : rng) :
  (lo <= hi)%R ->
  Forall (fun x => (lo <= x <= hi)%R) (fst (draws next_unit n lo hi g)).
Proof.
  intros Hlh. revert g. induction n as [|n IH]; intros g; simpl.
  - constructor.
  - pose proof (next_unit_range g) as Hu.
    destruct (next_unit g) as [u g1]. specialize (IH g1).
    destruct (draws next_unit n lo hi g1) as [l g2]. simpl in *.
    constructor; [|exact IH]. nra.
Qed.

Lemma filled_bounds (lo hi : R) (t : tensor R) :
  (lo <= hi)%R -> filled next_unit lo hi t ->
  Forall (fun x => (lo <= x <= hi)%R) (data t).
Proof.
  intros Hlh [g Eg]. rewrite Eg. now apply draws_bounds.
Qed.

Lemma bound_order (n : Z) :
  (0 < n)%Z -> (- (1 / sqrt (IZR n)) <= 1 / sqrt (IZR n))%R.
Proof.
  intros Hn. assert (H0 : (0 < sqrt (IZR n))%R)
    by (apply sqrt_lt_R0; now apply IZR_lt).
  assert (H1 : (0 < 1 / sqrt (IZR n))%R)
    by (apply Rdiv_lt_0_compat; lra).
  lra.
Qed.

Lemma sqrt_100 : sqrt 100 = 10%R.
Proof.
  replace 100%R with (10 * 10)%R by lra. apply sqrt_square. lra.
Qed.

End Bounds.

End InitFacts.

(** ** The constructors on a concrete generator *)

Lemma const_rng_range : forall g : unit, (0 <= fst (const_rng g) <= 1)%R.
Proof. intros g. unfold const_rng. simpl. lra. Qed.

(** [Linear(0, 5)] fails with ZeroDivisionError, not ConfigurationError,
    and only after the weight and the bias were allocated. *)
Lemma Linear_init_zero_in_features :
  let in_f := 0%Z in
  let r := Linear_init const_rng no_junk in_f 5 true world0 in
  (in_f <= 0)%Z /\
  fst r = Raise ZeroDivisionError /\
  fst r <> Raise ConfigurationError /\
  allocated (snd r) = [[5]; [5; 0]].
Proof.
  cbv zeta.
  rewrite (@Linear_init_zero unit const_rng no_junk 5 true world0)
    by lia.
  simpl. repeat split; [lia | discriminate].
Qed.

Lemma init_no_validation_witness :
  Linear_init const_rng no_junk 0 5 false world0 =
    (Raise ZeroDivisionError, {| gen := tt; allocated := [[5; 0]] |}).
Proof.
  apply (proj1 (proj2 (proj2 (@init_no_validation unit const_rng no_junk)))
           5%Z false world0).
  lia.
Defined.

Lemma bias_absent_or_shaped_witness :
  exists m w',
    Linear_init const_rng no_junk 3 2 false world0 = (Ok m, w') /\
    (false = false -> bias m = None /\
       forall x, Linear_forward m x = F.linear x (weight m) None) /\
    (false = true -> exists b, bias m = Some b /\ shape b = [2]).
Proof.
  apply (proj1 (@bias_absent_or_shaped unit const_rng no_junk)
           3%Z 2%Z false world0); lia.
Defined.


(** ** extra_repr *)

Lemma py_int_of_str_str (z : Z) : py_int_of_str (py_str_int z) = Some z.
Proof.
  unfold py_int_of_str, py_str_int.
  rewrite NilZero.isi.
  - simpl. now rewrite DecimalZ.of_to.
  - destruct z; simpl; try discriminate.
    intros [= E]. revert E. apply DecimalPos.Unsigned.to_uint_nonnil.
  - destruct z; simpl; try discriminate.
    intros [= E]. revert E. apply DecimalPos.Unsigned.to_uint_nonnil.
Qed.

Lemma py_str_int_inj (a b : Z) : py_str_int a = py_str_int b -> a = b.
Proof.
  intros E. pose proof (py_int_of_str_str a) as Ha.
  rewrite E, py_int_of_str_str in Ha. congruence.
Qed.

Lemma comma_free_uint (d : Decimal.uint) :
  comma_free (NilEmpty.string_of_uint d) = true.
Proof. induction d; simpl; auto. Qed.

Lemma comma_free_int (z : Z) : comma_free (py_str_int z) = true.
Proof.
  unfold py_str_int, NilZero.string_of_int, NilZero.string_of_uint.
  destruct (Z.to_int z) as [d|d]; destruct d; simpl;
    auto using comma_free_uint.
Qed.

(** Two texts that continue with a comma after a comma-free part agree on
    that part and on the rest. *)
Lemma split_at_comma (s1 s2 r1 r2 : string) :
  comma_free s1 = true -> comma_free s2 = true ->
  (s1 ++ String "," r1)%string = (s2 ++ String "," r2)%string ->
  s1 = s2 /\ r1 = r2.
Proof.
  revert s2. induction s1 as [|c s1 IH]; intros [|c2 s2]; simpl.
  - intros _ _ [= E]. now split.
  - intros _ H2 [= Ec E]. subst c2. discriminate.
  - intros H1 _ [= Ec E]. subst c. discriminate.
  - rewrite !andb_true_iff. intros [_ H1] [_ H2] [= Ec E].
    destruct (IH s2 H1 H2 E) as [-> ->]. now subst.
Qed.

Lemma py_str_bool_inj (a b : bool) : py_str_bool a = py_str_bool b -> a = b.
Proof. destruct a, b; simpl; congruence. Qed.


(** X1: the text of [Linear.extra_repr] determines the configuration it was
    printed from: the two feature counts and whether there is a bias. *)
Theorem Linear_extra_repr_inj (A B : Type) (m1 : Linear A) (m2 : Linear B) :
  Linear_extra_repr m1 = Linear_extra_repr m2 ->
  in_features m1 = in_features m2 /\
  out_features m1 = out_features m2 /\
  (bias m1 = None <-> bias m2 = None).
Proof.
  unfold Linear_extra_repr. simpl. intros E.
  injection E as E.
  apply split_at_comma in E; try apply comma_free_int.
  destruct E as [E1 E]. injection E as E.
  apply split_at_comma in E; try apply comma_free_int.
  destruct E as [E2 E]. injection E as E.
  apply py_str_int_inj in E1, E2. apply py_str_bool_inj in E.
  split; [exact E1|]. split; [exact E2|].
  destruct (bias m1), (bias m2); simpl in E; try discriminate;
    split; congruence.
Qed.

Lemma Linear_extra_repr_inj_witness :
  in_features linear_4_2 = in_features linear_4_2_ones /\
  out_features linear_4_2 = out_features linear_4_2_ones /\
  (bias linear_4_2 = None <-> bias linear_4_2_ones = None).
Proof.
  apply (@Linear_extra_repr_inj Z Z linear_4_2 linear_4_2_ones).
  reflexivity.
Defined.

(** X2: the text of [Bilinear.extra_repr] determines the three feature counts
    and whether there is a bias. *)
Theorem Bilinear_extra_repr_inj (A B : Type)
  (m1 : Bilinear A) (m2 : Bilinear B) :
  Bilinear_extra_repr m1 = Bilinear_extra_repr m2 ->
  in1_features m1 = in1_features m2 /\
  in2_features m1 = in2_features m2 /\
  bil_out_features m1 = bil_out_features m2 /\
  (bil_bias m1 = None <-> bil_bias m2 = None).
Proof.
  unfold Bilinear_extra_repr. simpl. intros E.
  injection E as E.
  apply split_at_comma in E; try apply comma_free_int.
  destruct E as [E1 E]. injection E as E.
  apply split_at_comma in E; try apply comma_free_int.
  destruct E as [E2 E]. injection E as E.
  apply split_at_comma in E; try apply comma_free_int.
  destruct E as [E3 E]. injection E as E.
  apply py_str_int_inj in E1, E2, E3. apply py_str_bool_inj in E.
  split; [exact E1|]. split; [exact E2|]. split; [exact E3|].
  destruct (bil_bias m1), (bil_bias m2); simpl in E; try discriminate;
    split; congruence.
Qed.

Lemma Bilinear_extra_repr_inj_witness :
  in1_features bilinear_dot = in1_features bilinear_swap /\
  in2_features bilinear_dot = in2_features bilinear_swap /\
  bil_out_features bilinear_dot = bil_out_features bilinear_swap /\
  (bil_bias bilinear_dot = None <-> bil_bias bilinear_swap = None).
Proof.
  apply (@Bilinear_extra_repr_inj Z Z bilinear_dot bilinear_swap).
  reflexivity.
Defined.

(** ** More on construction and re-initialisation *)

Section InitMore.
Variable rng : Type.
Variable next_unit : rng -> R * rng.
Variable junk : nat -> R.

Lemma draws_app (n1 n2 : nat) (lo hi : R) (g : rng) :
  draws next_unit (n1 + n2) lo hi g =
    (fst (draws next_unit n1 lo hi g) ++
     fst (draws next_unit n2 lo hi (snd (draws next_unit n1 lo hi g))),
     snd (draws next_unit n2 lo hi (snd (draws next_unit n1 lo hi g)))).
Proof.
  revert g. induction n1 as [|n1 IH]; intros g; simpl.
  - now destruct (draws next_unit n2 lo hi g).
  - destruct (next_unit g) as [u g1]. rewrite IH.
    destruct (draws next_unit n1 lo hi g1) as [l1 g2]. reflexivity.
Qed.

(** [reset_parameters], in full: the weight takes the first draws, the
    bias the following ones. *)
Lemma Linear_reset_exact (m : Linear R) (s : R) (w : world rng) :
  stdv_of (weight m) = Ok s ->
  forall nw nb, nw = length (data (weight m)) ->
                nb = length (param_data (bias m)) ->
  exists m' w',
    Linear_reset_parameters next_unit m w = (Ok m', w') /\
    allocated w' = allocated w /\
    in_features m' = in_features m /\
    out_features m' = out_features m /\
    shape (weight m') = shape (weight m) /\
    data (weight m') = fst (draws next_unit nw (- s) s (gen w)) /\
    option_map shape (bias m') = option_map shape (bias m) /\
    param_data (bias m') =
      fst (draws next_unit nb (- s) s
             (snd (draws next_unit nw (- s) s (gen w)))) /\
    gen w' = snd (draws next_unit (nw + nb) (- s) s (gen w)).
Proof.
  intros Es nw nb -> ->.
  unfold Linear_reset_parameters, mbind, lift. rewrite Es.
  rewrite uniform_eq. rewrite draws_app.
  destruct (bias m) as [b|]; simpl.
  - rewrite uniform_eq. unfold ret. eexists. eexists.
    split; [reflexivity|]. cbn. repeat split.
  - unfold ret. eexists. eexists.
    split; [reflexivity|]. cbn. repeat split.
Qed.

Lemma Bilinear_reset_exact (m : Bilinear R) (s : R) (w : world rng) :
  stdv_of (bil_weight m) = Ok s ->
  forall nw nb, nw = length (data (bil_weight m)) ->
                nb = length (param_data (bil_bias m)) ->
  exists m' w',
    Bilinear_reset_parameters next_unit m w = (Ok m', w') /\
    allocated w' = allocated w /\
    in1_features m' = in1_features m /\
    in2_features m' = in2_features m /\
    bil_out_features m' = bil_out_features m /\
    shape (bil_weight m') = shape (bil_weight m) /\
    data (bil_weight m') = fst (draws next_unit nw (- s) s (gen w)) /\
    option_map shape (bil_bias m') = option_map shape (bil_bias m) /\
    param_data (bil_bias m') =
      fst (draws next_unit nb (- s) s
             (snd (draws next_unit nw (- s) s (gen w)))) /\
    gen w' = snd (draws next_unit (nw + nb) (- s) s (gen w)).
Proof.
  intros Es nw nb -> ->.
  unfold Bilinear_reset_parameters, mbind, lift. rewrite Es.
  rewrite uniform_eq. rewrite draws_app.
  destruct (bil_bias m) as [b|]; simpl.
  - rewrite uniform_eq. unfold ret. eexists. eexists.
    split; [reflexivity|]. cbn. repeat split.
  - unfold ret. eexists. eexists.
    split; [reflexivity|]. cbn. repeat split.
Qed.

Lemma tensor_eq (t : tensor R) (s : list nat) (l : list R) :
  shape t = s -> data t = l -> t = {| shape := s; data := l |}.
Proof. destruct t. simpl. now intros -> ->. Qed.

Lemma fresh_length (s : list nat) :
  length (map junk (seq 0 (numel s))) = numel s.
Proof. now rewrite length_map, length_seq. Qed.

(** The constructor, in full. *)
Lemma Linear_init_exact (in_f out_f : Z) (hb : bool) (w : world rng) :
  (0 < in_f)%Z -> (0 <= out_f)%Z ->
  forall o i s, o = Z.to_nat out_f -> i = Z.to_nat in_f ->
                s = (1 / sqrt (IZR in_f))%R ->
  exists m w',
    Linear_init next_unit junk in_f out_f hb w = (Ok m, w') /\
    in_features m = in_f /\
    out_features m = out_f /\
    weight m = {| shape := [o; i];
                  data := fst (draws next_unit (numel [o; i]) (- s) s
                                 (gen w)) |} /\
    option_map shape (bias m) = (if hb then Some [o] else None) /\
    param_data (bias m) =
      fst (draws next_unit (if hb then o else 0) (- s) s
             (snd (draws next_unit (numel [o; i]) (- s) s (gen w)))) /\
    gen w' = snd (draws next_unit (numel [o; i] + (if hb then o else 0))
                    (- s) s (gen w)) /\
    allocated w' = (if hb then [[o]] else []) ++ [o; i] :: allocated w.
Proof.
  intros Hin Hout o i s -> -> ->. unfold Linear_init, mbind.
  rewrite torch_Tensor_ok by (repeat constructor; lia).
  set (w0 := {| shape := map Z.to_nat [out_f; in_f];
                data := map junk (seq 0 (numel (map Z.to_nat [out_f; in_f]))) |}).
  assert (Es : forall b : option (tensor R),
             stdv_of (weight {| in_features := in_f; out_features := out_f;
                                weight := w0; bias := b |})
             = Ok (1 / sqrt (IZR in_f))%R).
  { intros b. rewrite <- (INR_to_nat (z := in_f)) by lia.
    apply stdv_of_pos; [reflexivity | lia]. }
  destruct hb.
  - rewrite torch_Tensor_ok by (repeat constructor; lia). unfold ret.
    match goal with
    | |- context [Linear_reset_parameters _ ?m ?w1] =>
        destruct (@Linear_reset_exact m _ w1 (Es (bias m))
                    (numel [Z.to_nat out_f; Z.to_nat in_f])
                    (Z.to_nat out_f))
          as [m' [w' [E [Ha [Hi [Ho [Hs [Hd [Hsb [Hdb Hg]]]]]]]]]]
    end.
    { cbn. symmetry. apply fresh_length. }
    { cbn. rewrite fresh_length. unfold numel. simpl. lia. }
    exists m', w'. split; [exact E|]. cbn in Hi, Ho, Hs, Hd, Hsb, Hdb, Hg, Ha.
    repeat split; try assumption.
    now apply tensor_eq.
  - unfold ret.
    match goal with
    | |- context [Linear_reset_parameters _ ?m ?w1] =>
        destruct (@Linear_reset_exact m _ w1 (Es (bias m))
                    (numel [Z.to_nat out_f; Z.to_nat in_f]) 0)
          as [m' [w' [E [Ha [Hi [Ho [Hs [Hd [Hsb [Hdb Hg]]]]]]]]]]
    end.
    { cbn. symmetry. apply fresh_length. }
    { reflexivity. }
    exists m', w'. split; [exact E|]. cbn in Hi, Ho, Hs, Hd, Hsb, Hdb, Hg, Ha.
    repeat split; try assumption.
    now apply tensor_eq.
Qed.

Lemma Bilinear_init_exact (in1_f in2_f out_f : Z) (hb : bool)
  (w : world rng) :
  (0 < in1_f)%Z -> (0 <= in2_f)%Z -> (0 <= out_f)%Z ->
  forall o i1 i2 s, o = Z.to_nat out_f -> i1 = Z.to_nat in1_f ->
                    i2 = Z.to_nat in2_f ->
                    s = (1 / sqrt (IZR in1_f))%R ->
  exists m w',
    Bilinear_init next_unit junk in1_f in2_f out_f hb w = (Ok m, w') /\
    in1_features m = in1_f /\
    in2_features m = in2_f /\
    bil_out_features m = out_f /\
    bil_weight m = {| shape := [o; i1; i2];
                      data := fst (draws next_unit (numel [o; i1; i2])
                                     (- s) s (gen w)) |} /\
    option_map shape (bil_bias m) = (if hb then Some [o] else None) /\
    param_data (bil_bias m) =
      fst (draws next_unit (if hb then o else 0) (- s) s
             (snd (draws next_unit (numel [o; i1; i2]) (- s) s (gen w)))) /\
    gen w' = snd (draws next_unit
                    (numel [o; i1; i2] + (if hb then o else 0))
                    (- s) s (gen w)) /\
    allocated w' = (if hb then [[o]] else []) ++ [o; i1; i2] :: allocated w.
Proof.
  intros Hin1 Hin2 Hout o i1 i2 s -> -> -> ->. unfold Bilinear_init, mbind.
  rewrite torch_Tensor_ok by (repeat constructor; lia).
  set (w0 := {| shape := map Z.to_nat [out_f; in1_f; in2_f];
                data := map junk
                  (seq 0 (numel (map Z.to_nat [out_f; in1_f; in2_f]))) |}).
  assert (Es : forall b : option (tensor R),
             stdv_of (bil_weight {| in1_features := in1_f;
                                    in2_features := in2_f;
                                    bil_out_features := out_f;
                                    bil_weight := w0; bil_bias := b |})
             = Ok (1 / sqrt (IZR in1_f))%R).
  { intros b. rewrite <- (INR_to_nat (z := in1_f)) by lia.
    apply stdv_of_pos; [reflexivity | lia]. }
  destruct hb.
  - rewrite torch_Tensor_ok by (repeat constructor; lia). unfold ret.
    match goal with
    | |- context [Bilinear_reset_parameters _ ?m ?w1] =>
        destruct (@Bilinear_reset_exact m _ w1 (Es (bil_bias m))
                    (numel [Z.to_nat out_f; Z.to_nat in1_f; Z.to_nat in2_f])
                    (Z.to_nat out_f))
          as [m' [w' [E [Ha [Hi1 [Hi2 [Ho [Hs [Hd [Hsb [Hdb Hg]]]]]]]]]]]
    end.
    { cbn. symmetry. apply fresh_length. }
    { cbn. rewrite fresh_length. unfold numel. simpl. lia. }
    exists m', w'. split; [exact E|].
    cbn in Hi1, Hi2, Ho, Hs, Hd, Hsb, Hdb, Hg, Ha.
    repeat split; try assumption.
    now apply tensor_eq.
  - unfold ret.
    match goal with
    | |- context [Bilinear_reset_parameters _ ?m ?w1] =>
        destruct (@Bilinear_reset_exact m _ w1 (Es (bil_bias m))
                    (numel [Z.to_nat out_f; Z.to_nat in1_f; Z.to_nat in2_f])
                    0)
          as [m' [w' [E [Ha [Hi1 [Hi2 [Ho [Hs [Hd [Hsb [Hdb Hg]]]]]]]]]]]
    end.
    { cbn. symmetry. apply fresh_length. }
    { reflexivity. }
    exists m', w'. split; [exact E|].
    cbn in Hi1, Hi2, Ho, Hs, Hd, Hsb, Hdb, Hg, Ha.
    repeat split; try assumption.
    now apply tensor_eq.
Qed.

(** X5: reset_parameters changes values only: the configuration, the shapes of
    weight and bias, the presence of the bias and the list of allocated
    tensors are as before, and well-formed parameters stay well-formed. *)
Theorem reset_parameters_keeps_shapes :
  (forall (m : Linear R) (n : nat) (w : world rng),
      nth_error (shape (weight m)) 1 = Some n -> 0 < n ->
      exists m' w',
        Linear_reset_parameters next_unit m w = (Ok m', w') /\
        in_features m' = in_features m /\
        out_features m' = out_features m /\
        shape (weight m') = shape (weight m) /\
        option_map shape (bias m') = option_map shape (bias m) /\
        allocated w' = allocated w /\
        (wf (weight m) -> wf (weight m')) /\
        (forall b b', bias m = Some b -> bias m' = Some b' ->
                      wf b -> wf b')) /\
  (forall (m : Bilinear R) (n : nat) (w : world rng),
      nth_error (shape (bil_weight m)) 1 = Some n -> 0 < n ->
      exists m' w',
        Bilinear_reset_parameters next_unit m w = (Ok m', w') /\
        in1_features m' = in1_features m /\
        in2_features m' = in2_features m /\
        bil_out_features m' = bil_out_features m /\
        shape (bil_weight m') = shape (bil_weight m) /\
        option_map shape (bil_bias m') = option_map shape (bil_bias m) /\
        allocated w' = allocated w /\
        (wf (bil_weight m) -> wf (bil_weight m')) /\
        (forall b b', bil_bias m = Some b -> bil_bias m' = Some b' ->
                      wf b -> wf b')).
Proof.
  split.
  - intros m n w Hn Hpos.
    destruct (@Linear_reset_exact m _ w (stdv_of_pos _ Hn Hpos) _ _
                eq_refl eq_refl)
      as [m' [w' [E [Ha [Hi [Ho [Hs [Hd [Hsb [Hdb _]]]]]]]]]].
    exists m', w'. split; [exact E|].
    repeat split; try assumption.
    + unfold wf. rewrite Hs, Hd, draws_length. tauto.
    + intros b b' Eb Eb'. rewrite Eb, Eb' in Hsb, Hdb. simpl in Hsb, Hdb.
      injection Hsb as Hsb. unfold wf. rewrite Hsb, Hdb, draws_length.
      tauto.
  - intros m n w Hn Hpos.
    destruct (@Bilinear_reset_exact m _ w (stdv_of_pos _ Hn Hpos) _ _
                eq_refl eq_refl)
      as [m' [w' [E [Ha [Hi1 [Hi2 [Ho [Hs [Hd [Hsb [Hdb _]]]]]]]]]]].
    exists m', w'. split; [exact E|].
    repeat split; try assumption.
    + unfold wf. rewrite Hs, Hd, draws_length. tauto.
    + intros b b' Eb Eb'. rewrite Eb, Eb' in Hsb, Hdb. simpl in Hsb, Hdb.
      injection Hsb as Hsb. unfold wf. rewrite Hsb, Hdb, draws_length.
      tauto.
Qed.

(** X6: when the bound cannot be computed reset_parameters raises before it
    draws or writes anything: ZeroDivisionError when the second dimension
    of the weight has size 0, IndexError when the weight has fewer than two
    dimensions; the generator is left where it was. *)
Theorem reset_parameters_failure :
  (forall (m : Linear R) (w : world rng),
      nth_error (shape (weight m)) 1 = Some 0 ->
      Linear_reset_parameters next_unit m w = (Raise ZeroDivisionError, w)) /\
  (forall (m : Linear R) (w : world rng),
      length (shape (weight m)) < 2 ->
      Linear_reset_parameters next_unit m w = (Raise IndexError, w)) /\
  (forall (m : Bilinear R) (w : world rng),
      nth_error (shape (bil_weight m)) 1 = Some 0 ->
      Bilinear_reset_parameters next_unit m w
        = (Raise ZeroDivisionError, w)) /\
  (forall (m : Bilinear R) (w : world rng),
      length (shape (bil_weight m)) < 2 ->
      Bilinear_reset_parameters next_unit m w = (Raise IndexError, w)).
Proof.
  assert (Hidx : forall t : tensor R,
             length (shape t) < 2 -> stdv_of t = Raise IndexError).
  { intros t Hl. unfold stdv_of, size.
    replace (nth_error (shape t) 1) with (@None nat); [reflexivity|].
    symmetry. apply nth_error_None. lia. }
  split; [|split; [|split]].
  - intros m w Hn. apply Linear_reset_fail. now apply stdv_of_zero.
  - intros m w Hl. apply Linear_reset_fail. now apply Hidx.
  - intros m w Hn. apply Bilinear_reset_fail. now apply stdv_of_zero.
  - intros m w Hl. apply Bilinear_reset_fail. now apply Hidx.
Qed.

(** X8: the weight of a new module does not depend on the bias flag: from one
    generator state, construction with and without bias gives the same
    weight, because the weight is drawn before the bias. *)
Theorem init_weight_independent_of_bias :
  (forall (in_f out_f : Z) (w : world rng),
      (0 < in_f)%Z -> (0 <= out_f)%Z ->
      exists m1 w1 m2 w2,
        Linear_init next_unit junk in_f out_f true w = (Ok m1, w1) /\
        Linear_init next_unit junk in_f out_f false w = (Ok m2, w2) /\
        weight m1 = weight m2 /\
        bias m2 = None /\ bias m1 <> None) /\
  (forall (in1_f in2_f out_f : Z) (w : world rng),
      (0 < in1_f)%Z -> (0 <= in2_f)%Z -> (0 <= out_f)%Z ->
      exists m1 w1 m2 w2,
        Bilinear_init next_unit junk in1_f in2_f out_f true w = (Ok m1, w1) /\
        Bilinear_init next_unit junk in1_f in2_f out_f false w
          = (Ok m2, w2) /\
        bil_weight m1 = bil_weight m2 /\
        bil_bias m2 = None /\ bil_bias m1 <> None).
Proof.
  split.
  - intros in_f out_f w Hin Hout.
    destruct (@Linear_init_exact in_f out_f true w Hin Hout _ _ _
                eq_refl eq_refl eq_refl)
      as [m1 [w1 [E1 [_ [_ [Hw1 [Hb1 _]]]]]]].
    destruct (@Linear_init_exact in_f out_f false w Hin Hout _ _ _
                eq_refl eq_refl eq_refl)
      as [m2 [w2 [E2 [_ [_ [Hw2 [Hb2 _]]]]]]].
    exists m1, w1, m2, w2. repeat split; try assumption.
    + now rewrite Hw1, Hw2.
    + now destruct (bias m2).
    + destruct (bias m1); [discriminate | discriminate].
  - intros in1_f in2_f out_f w Hin1 Hin2 Hout.
    destruct (@Bilinear_init_exact in1_f in2_f out_f true w Hin1 Hin2 Hout
                _ _ _ _ eq_refl eq_refl eq_refl eq_refl)
      as [m1 [w1 [E1 [_ [_ [_ [Hw1 [Hb1 _]]]]]]]].
    destruct (@Bilinear_init_exact in1_f in2_f out_f false w Hin1 Hin2 Hout
                _ _ _ _ eq_refl eq_refl eq_refl eq_refl)
      as [m2 [w2 [E2 [_ [_ [_ [Hw2 [Hb2 _]]]]]]]].
    exists m1, w1, m2, w2. repeat split; try assumption.
    + now rewrite Hw1, Hw2.
    + now destruct (bil_bias m2).
    + destruct (bil_bias m1); [discriminate | discriminate].
Qed.

(** X3: extra_repr of a new module prints the arguments of the constructor,
    with bias=True exactly when has_bias was set. *)
Theorem extra_repr_of_init :
  (forall (in_f out_f : Z) (hb : bool) (w : world rng),
      (0 < in_f)%Z -> (0 <= out_f)%Z ->
      exists m w',
        Linear_init next_unit junk in_f out_f hb w = (Ok m, w') /\
        Linear_extra_repr m =
          ("in_features=" ++ py_str_int in_f
           ++ ", out_features=" ++ py_str_int out_f
           ++ ", bias=" ++ (if hb then "True" else "False"))%string) /\
  (forall (in1_f in2_f out_f : Z) (hb : bool) (w : world rng),
      (0 < in1_f)%Z -> (0 <= in2_f)%Z -> (0 <= out_f)%Z ->
      exists m w',
        Bilinear_init next_unit junk in1_f in2_f out_f hb w = (Ok m, w') /\
        Bilinear_extra_repr m =
          ("in1_features=" ++ py_str_int in1_f
           ++ ", in2_features=" ++ py_str_int in2_f
           ++ ", out_features=" ++ py_str_int out_f
           ++ ", bias=" ++ (if hb then "True" else "False"))%string).
Proof.
  split.
  - intros in_f out_f hb w Hin Hout.
    destruct (@Linear_init_exact in_f out_f hb w Hin Hout _ _ _
                eq_refl eq_refl eq_refl)
      as [m [w' [E [Hi [Ho [_ [Hb _]]]]]]].
    exists m, w'. split; [exact E|].
    unfold Linear_extra_repr. rewrite Hi, Ho.
    destruct (bias m), hb; simpl in Hb; try discriminate; reflexivity.
  - intros in1_f in2_f out_f hb w Hin1 Hin2 Hout.
    destruct (@Bilinear_init_exact in1_f in2_f out_f hb w Hin1 Hin2 Hout
                _ _ _ _ eq_refl eq_refl eq_refl eq_refl)
      as [m [w' [E [Hi1 [Hi2 [Ho [_ [Hb _]]]]]]]].
    exists m, w'. split; [exact E|].
    unfold Bilinear_extra_repr. rewrite Hi1, Hi2, Ho.
    destruct (bil_bias m), hb; simpl in Hb; try discriminate; reflexivity.
Qed.

Section BoundsMore.
Hypothesis next_unit_range :
  forall g, (0 <= fst (next_unit g) <= 1)%R.

(** X7: reset_parameters on any module, whatever its parameters hold: when the
    second dimension of the weight has a positive size n, the call succeeds
    and every element of the weight, and of the bias when there is one,
    ends within [-1/sqrt(n), 1/sqrt(n)]. *)
Theorem reset_parameters_bounds_any :
  (forall (m : Linear R) (n : nat) (w : world rng),
      nth_error (shape (weight m)) 1 = Some n -> 0 < n ->
      exists m' w',
        Linear_reset_parameters next_unit m w = (Ok m', w') /\
        Forall (fun x => (- (1 / sqrt (INR n)) <= x <= 1 / sqrt (INR n))%R)
          (data (weight m') ++ param_data (bias m'))) /\
  (forall (m : Bilinear R) (n : nat) (w : world rng),
      nth_error (shape (bil_weight m)) 1 = Some n -> 0 < n ->
      exists m' w',
        Bilinear_reset_parameters next_unit m w = (Ok m', w') /\
        Forall (fun x => (- (1 / sqrt (INR n)) <= x <= 1 / sqrt (INR n))%R)
          (data (bil_weight m') ++ param_data (bil_bias m'))).
Proof.
  assert (Hord : forall n, 0 < n ->
             (- (1 / sqrt (INR n)) <= 1 / sqrt (INR n))%R).
  { intros n Hn. rewrite INR_IZR_INZ. apply bound_order. lia. }
  split.
  - intros m n w Hn Hpos.
    destruct (@Linear_reset_exact m _ w (stdv_of_pos _ Hn Hpos) _ _
                eq_refl eq_refl)
      as [m' [w' [E [_ [_ [_ [_ [Hd [_ [Hdb _]]]]]]]]]].
    exists m', w'. split; [exact E|].
    rewrite Hd, Hdb. apply Forall_app.
    split; apply draws_bounds; auto.
  - intros m n w Hn Hpos.
    destruct (@Bilinear_reset_exact m _ w (stdv_of_pos _ Hn Hpos) _ _
                eq_refl eq_refl)
      as [m' [w' [E [_ [_ [_ [_ [_ [Hd [_ [Hdb _]]]]]]]]]]].
    exists m', w'. split; [exact E|].
    rewrite Hd, Hdb. apply Forall_app.
    split; apply draws_bounds; auto.
Qed.

End BoundsMore.

End InitMore.

Lemma reset_parameters_keeps_shapes_witness :
  exists m' w',
    Linear_reset_parameters const_rng linear_trained world0 = (Ok m', w') /\
    in_features m' = 4%Z /\
    out_features m' = 1%Z /\
    shape (weight m') = [1; 4] /\
    option_map shape (bias m') = Some [1] /\
    allocated w' = [] /\
    (wf (weight linear_trained) -> wf (weight m')) /\
    (forall b b', bias linear_trained = Some b -> bias m' = Some b' ->
                  wf b -> wf b').
Proof.
  apply (proj1 (@reset_parameters_keeps_shapes unit const_rng no_junk)
           linear_trained 4 world0).
  - reflexivity.
  - lia.
Defined.

Lemma reset_parameters_failure_witness :
  Linear_reset_parameters const_rng linear_no_input world0
    = (Raise ZeroDivisionError, world0).
Proof.
  apply (proj1 (@reset_parameters_failure unit const_rng)
           linear_no_input world0).
  reflexivity.
Defined.

Lemma init_weight_independent_of_bias_witness :
  exists m1 w1 m2 w2,
    Linear_init const_rng no_junk 3 2 true world0 = (Ok m1, w1) /\
    Linear_init const_rng no_junk 3 2 false world0 = (Ok m2, w2) /\
    weight m1 = weight m2 /\
    bias m2 = None /\ bias m1 <> None.
Proof.
  apply (proj1 (@init_weight_independent_of_bias unit const_rng no_junk)
           3%Z 2%Z world0); lia.
Defined.

Lemma extra_repr_of_init_witness :
  exists m w',
    Linear_init const_rng no_junk 20 30 true world0 = (Ok m, w') /\
    Linear_extra_repr m
      = "in_features=20, out_features=30, bias=True"%string.
Proof.
  apply (proj1 (@extra_repr_of_init unit const_rng no_junk)
           20%Z 30%Z true world0); lia.
Defined.

Lemma reset_parameters_bounds_any_witness :
  exists m' w',
    Linear_reset_parameters const_rng linear_trained world0 = (Ok m', w') /\
    Forall (fun x => (- (1 / sqrt (INR 4)) <= x <= 1 / sqrt (INR 4))%R)
      (data (weight m') ++ param_data (bias m')).
Proof.
  apply (proj1 (@reset_parameters_bounds_any unit const_rng
                  const_rng_range) linear_trained 4 world0).
  - reflexivity.
  - lia.
Defined.

(** ** More on FiLM.forward *)

Lemma broadcast_shapes_one_less (s1 s2 : list nat) :
  S (length s1) = length s2 ->
  broadcast_shapes s1 s2 = broadcast_zip (1 :: s1) s2 /\
  broadcast_shapes s2 s1 = broadcast_zip s2 (1 :: s1).
Proof.
  intros E. unfold broadcast_shapes, pad.
  rewrite (Nat.max_comm (length s2)).
  replace (Nat.max (length s1) (length s2)) with (length s2) by lia.
  rewrite Nat.sub_diag.
  replace (length s2 - length s1) with 1 by lia.
  now split.
Qed.

Section FiLMMore.
Context {A : Type} `{Num A}.

(** Every in-bounds index of a shape with two leading dimensions. *)
Lemma in_bounds_two (N C : nat) (rest idx : list nat) :
  in_bounds (N :: C :: rest) idx = true ->
  exists n c r, idx = n :: c :: r /\ n < N /\ c < C /\
                in_bounds rest r = true.
Proof.
  destruct idx as [|n [|c r]]; simpl; try discriminate.
  - now rewrite andb_false_r.
  - rewrite !andb_true_iff, !Nat.ltb_lt. intros [Hn [Hc Hr]].
    now exists n, c, r.
Qed.

(** X10: gammas and betas of shape (1, 1) are accepted for every input with at
    least two dimensions: one scale and one shift are applied to every
    element, output[...] = gammas[0, 0] * input[...] + betas[0, 0]. *)
Theorem FiLM_forward_global (input gammas betas : tensor A)
  (N C : nat) (rest : list nat) :
  shape input = N :: C :: rest ->
  shape gammas = [1; 1] ->
  shape betas = [1; 1] ->
  exists output,
    FiLM_forward input gammas betas = Ok output /\
    shape output = shape input /\
    wf output /\
    forall idx,
      in_bounds (shape input) idx = true ->
      get output idx =
        add (mul (get gammas [0; 0]) (get input idx)) (get betas [0; 0]).
Proof.
  intros Hi Hg Hb.
  rewrite FiLM_forward_unfold. cbv zeta.
  replace (Z.to_nat (Z.of_nat (dim input) - 2)) with (length rest)
    by (unfold dim; rewrite Hi; cbn [length]; lia).
  assert (Hsg : forall t : tensor A, shape t = [1; 1] ->
            shape (append_ones t (length rest))
              = repeat 1 (length (N :: C :: rest))).
  { intros t Ht. unfold append_ones. cbn [shape]. now rewrite Ht. }
  unfold tmul, tadd.
  rewrite (@binop_ok A _ mul (append_ones gammas (length rest)) input
             (N :: C :: rest)).
  2:{ rewrite (Hsg _ Hg), Hi.
      rewrite broadcast_shapes_same_rank by now rewrite repeat_length.
      apply broadcast_zip_ones_l. }
  simpl bind.
  rewrite (@binop_ok A _ add _ (append_ones betas (length rest))
             (N :: C :: rest)).
  2:{ rewrite (Hsg _ Hb), build_shape.
      rewrite broadcast_shapes_same_rank by now rewrite repeat_length.
      apply broadcast_zip_ones_r. }
  eexists. split; [reflexivity|]. split; [now rewrite Hi|].
  split; [apply build_wf|].
  intros idx Hin. rewrite Hi in Hin.
  pose proof (in_bounds_length _ _ Hin) as Hl.
  rewrite get_build by exact Hin.
  rewrite build_shape, (bidx_in_bounds _ _ Hin).
  rewrite get_build by exact Hin.
  rewrite Hi, (bidx_in_bounds _ _ Hin).
  unfold get, append_ones. cbn [shape data]. rewrite Hg, Hb, Hi.
  change ([1; 1] ++ repeat 1 (length rest))
    with (repeat 1 (length (N :: C :: rest))).
  rewrite <- Hl.
  rewrite bidx_same_rank by now rewrite repeat_length.
  rewrite clamp_ones, ravel_ones. reflexivity.
Qed.

(** X11: gammas and betas of shape (C,) are accepted for every input of shape
    (N, C, ...): the modulation is per channel, the same for every sample,
    output[n, c, ...] = gammas[c] * input[n, c, ...] + betas[c]. *)
Theorem FiLM_forward_per_channel (input gammas betas : tensor A)
  (N C : nat) (rest : list nat) :
  shape input = N :: C :: rest ->
  shape gammas = [C] ->
  shape betas = [C] ->
  exists output,
    FiLM_forward input gammas betas = Ok output /\
    shape output = shape input /\
    wf output /\
    forall n c r,
      in_bounds (N :: C :: rest) (n :: c :: r) = true ->
      get output (n :: c :: r) =
        add (mul (get gammas [c]) (get input (n :: c :: r)))
            (get betas [c]).
Proof.
  intros Hi Hg Hb.
  rewrite FiLM_forward_unfold. cbv zeta.
  replace (Z.to_nat (Z.of_nat (dim input) - 2)) with (length rest)
    by (unfold dim; rewrite Hi; cbn [length]; lia).
  assert (Hrank : S (length ([C] ++ repeat 1 (length rest)))
                  = length (N :: C :: rest))
    by (simpl; now rewrite repeat_length).
  destruct (broadcast_shapes_one_less _ _ Hrank) as [B1 B2].
  assert (Z1 : broadcast_zip (1 :: [C] ++ repeat 1 (length rest))
                 (N :: C :: rest) = Some (N :: C :: rest)).
  { simpl. now rewrite broadcast_dim_one_l, broadcast_dim_refl,
      broadcast_zip_ones_l. }
  assert (Z2 : broadcast_zip (N :: C :: rest)
                 (1 :: [C] ++ repeat 1 (length rest))
               = Some (N :: C :: rest)).
  { simpl. now rewrite broadcast_dim_one_r, broadcast_dim_refl,
      broadcast_zip_ones_r. }
  unfold tmul, tadd.
  rewrite (@binop_ok A _ mul (append_ones gammas (length rest)) input
             (N :: C :: rest))
    by (unfold append_ones; cbn [shape]; rewrite Hg, Hi; congruence).
  simpl bind.
  rewrite (@binop_ok A _ add _ (append_ones betas (length rest))
             (N :: C :: rest))
    by (unfold append_ones; cbn [shape]; rewrite build_shape, Hb;
        congruence).
  eexists. split; [reflexivity|]. split; [now rewrite Hi|].
  split; [apply build_wf|].
  intros n c r Hin.
  destruct (in_bounds_modulation _ _ _ _ _ _ Hin) as [Hnc Hr].
  assert (Hc : in_bounds [C] [c] = true).
  { simpl in Hnc |- *. rewrite andb_true_iff in Hnc. tauto. }
  rewrite get_build by exact Hin.
  rewrite build_shape, (bidx_in_bounds _ _ Hin).
  rewrite get_build by exact Hin.
  rewrite Hi, (bidx_in_bounds _ _ Hin).
  assert (Hbidx : bidx ([C] ++ repeat 1 (length rest)) (n :: c :: r)
                  = [c] ++ repeat 0 (length rest)).
  { unfold bidx. cbn [length]. rewrite length_app, repeat_length.
    cbn [length]. rewrite Hr.
    replace (S (S (length rest)) - (1 + length rest)) with 1 by lia.
    cbn [skipn]. change (c :: r) with ([c] ++ r).
    rewrite clamp_app by reflexivity.
    now rewrite (clamp_in_bounds _ _ Hc), <- Hr, clamp_ones. }
  unfold append_ones. cbn [shape data]. rewrite Hg, Hb, !Hbidx.
  unfold get. cbn [shape data].
  rewrite !ravel_append_ones by reflexivity.
  now rewrite Hg, Hb.
Qed.

(** X13: on an input without elements (an empty batch, no channel or an empty
    spatial dimension) forward returns the empty tensor of the shape of
    the input; nothing is raised. *)
Theorem FiLM_forward_empty (input gammas betas : tensor A)
  (N C : nat) (rest : list nat) :
  shape input = N :: C :: rest ->
  shape gammas = [N; C] ->
  shape betas = [N; C] ->
  numel (shape input) = 0 ->
  FiLM_forward input gammas betas =
    Ok {| shape := shape input; data := [] |}.
Proof.
  intros Hi Hg Hb Hn.
  destruct (FiLM_forward_elements input gammas betas Hi Hg Hb)
    as [out [E [Hs [W _]]]].
  rewrite E. f_equal. destruct out as [s l]. simpl in Hs. subst s.
  unfold wf in W. simpl in W. rewrite Hn in W.
  destruct l; [reflexivity | discriminate].
Qed.

End FiLMMore.

Section FiLMCompose.
Context {A : Type} {NA : Num A} {NR : NumRing NA}.

Lemma binop_same_shape (op : A -> A -> A) (a b : tensor A) (s : list nat) :
  shape a = s -> shape b = s ->
  exists c,
    binop op a b = Ok c /\ shape c = s /\
    forall idx, in_bounds s idx = true ->
      get c idx = op (get a idx) (get b idx).
Proof.
  intros Ha Hb.
  rewrite (@binop_ok A NA op a b s)
    by (rewrite Ha, Hb, broadcast_shapes_same_rank by reflexivity;
        apply broadcast_zip_refl).
  eexists. split; [reflexivity|]. split; [reflexivity|].
  intros idx Hin. rewrite get_build by exact Hin.
  now rewrite Ha, Hb, (bidx_in_bounds _ _ Hin).
Qed.

(** X12: two modulations in a row are one modulation: modulating by (g1, b1)
    and then by (g2, b2) gives the tensor that the single modulation by
    (g2 * g1, g2 * b1 + b2) gives. *)
Theorem FiLM_forward_compose (input g1 b1 g2 b2 : tensor A)
  (N C : nat) (rest : list nat) :
  shape input = N :: C :: rest ->
  shape g1 = [N; C] -> shape b1 = [N; C] ->
  shape g2 = [N; C] -> shape b2 = [N; C] ->
  exists y g t b output,
    FiLM_forward input g1 b1 = Ok y /\
    FiLM_forward y g2 b2 = Ok output /\
    tmul g2 g1 = Ok g /\
    tmul g2 b1 = Ok t /\
    tadd t b2 = Ok b /\
    FiLM_forward input g b = Ok output.
Proof.
  intros Hi Hg1 Hb1 Hg2 Hb2.
  destruct (FiLM_forward_elements input g1 b1 Hi Hg1 Hb1)
    as [y [Ey [Hsy [Wy Hy]]]].
  rewrite Hi in Hsy.
  destruct (FiLM_forward_elements y g2 b2 Hsy Hg2 Hb2)
    as [out1 [E1 [Hs1 [W1 H1]]]].
  destruct (binop_same_shape mul g2 g1 Hg2 Hg1) as [g [Eg [Hsg Hgg]]].
  destruct (binop_same_shape mul g2 b1 Hg2 Hb1) as [t [Et [Hst Htt]]].
  destruct (binop_same_shape add t b2 Hst Hb2) as [b [Eb [Hsb Hbb]]].
  destruct (FiLM_forward_elements input g b Hi Hsg Hsb)
    as [out2 [E2 [Hs2 [W2 H2]]]].
  exists y, g, t, b, out1.
  repeat split; try assumption.
  rewrite E2. f_equal. apply tensor_ext; try assumption.
  - congruence.
  - intros idx Hin. rewrite Hs2, Hi in Hin.
    destruct (in_bounds_two _ _ _ _ Hin) as [n [c [r [-> [Hn [Hc Hr]]]]]].
    destruct (in_bounds_modulation _ _ _ _ _ _ Hin) as [Hnc _].
    rewrite (H2 n c r Hin), (H1 n c r Hin), (Hy n c r Hin).
    rewrite (Hgg _ Hnc), (Hbb _ Hnc), (Htt _ Hnc).
    now rewrite mul_add_distr_l, mul_assoc, add_assoc.
Qed.

End FiLMCompose.

Lemma FiLM_forward_global_witness :
  exists output,
    FiLM_forward (tensorZ [2; 3; 2] [1; 2; 3; 4; 5; 6; 7; 8; 9; 10; 11; 12]%Z)
      (tensorZ [1; 1] [2]%Z) (tensorZ [1; 1] [1]%Z) = Ok output /\
    shape output = [2; 3; 2] /\
    wf output /\
    forall idx,
      in_bounds [2; 3; 2] idx = true ->
      get output idx =
        Z.add (Z.mul 2 (get (tensorZ [2; 3; 2]
                               [1; 2; 3; 4; 5; 6; 7; 8; 9; 10; 11; 12]%Z)
                          idx)) 1.
Proof.
  exact (@FiLM_forward_global Z _
           (tensorZ [2; 3; 2] [1; 2; 3; 4; 5; 6; 7; 8; 9; 10; 11; 12]%Z)
           (tensorZ [1; 1] [2]%Z) (tensorZ [1; 1] [1]%Z) 2 3 [2]
           eq_refl eq_refl eq_refl).
Defined.

Lemma FiLM_forward_per_channel_witness :
  exists output,
    FiLM_forward (tensorZ [2; 3; 2] [1; 2; 3; 4; 5; 6; 7; 8; 9; 10; 11; 12]%Z)
      (tensorZ [3] [1; 2; 3]%Z) (tensorZ [3] [10; 20; 30]%Z) = Ok output /\
    shape output = [2; 3; 2] /\
    get output [1; 2; 0] = 63%Z.
Proof.
  destruct (@FiLM_forward_per_channel Z _
              (tensorZ [2; 3; 2] [1; 2; 3; 4; 5; 6; 7; 8; 9; 10; 11; 12]%Z)
              (tensorZ [3] [1; 2; 3]%Z) (tensorZ [3] [10; 20; 30]%Z)
              2 3 [2] eq_refl eq_refl eq_refl) as [out [E [Hs [_ Hg]]]].
  exists out. split; [exact E|]. split; [exact Hs|].
  exact (Hg 1 2 [0] eq_refl).
Defined.

Lemma FiLM_forward_empty_witness :
  FiLM_forward (tensorZ [0; 3; 2] []) (tensorZ [0; 3] []) (tensorZ [0; 3] [])
    = Ok (tensorZ [0; 3; 2] []).
Proof.
  apply (@FiLM_forward_empty Z _ (tensorZ [0; 3; 2] []) (tensorZ [0; 3] [])
           (tensorZ [0; 3] []) 0 3 [2]); reflexivity.
Defined.

Lemma FiLM_forward_compose_witness :
  exists y g t b output,
    FiLM_forward (tensorZ [1; 2; 2] [1; 2; 3; 4]%Z)
      (tensorZ [1; 2] [2; 3]%Z) (tensorZ [1; 2] [1; 1]%Z) = Ok y /\
    FiLM_forward y (tensorZ [1; 2] [5; 7]%Z) (tensorZ [1; 2] [0; 4]%Z)
      = Ok output /\
    tmul (tensorZ [1; 2] [5; 7]%Z) (tensorZ [1; 2] [2; 3]%Z) = Ok g /\
    tmul (tensorZ [1; 2] [5; 7]%Z) (tensorZ [1; 2] [1; 1]%Z) = Ok t /\
    tadd t (tensorZ [1; 2] [0; 4]%Z) = Ok b /\
    FiLM_forward (tensorZ [1; 2; 2] [1; 2; 3; 4]%Z) g b = Ok output.
Proof.
  apply (@FiLM_forward_compose Z _ _
           (tensorZ [1; 2; 2] [1; 2; 3; 4]%Z)
           (tensorZ [1; 2] [2; 3]%Z) (tensorZ [1; 2] [1; 1]%Z)
           (tensorZ [1; 2] [5; 7]%Z) (tensorZ [1; 2] [0; 4]%Z) 1 2 [2]);
    reflexivity.
Defined.

(** ** The values of the initial parameters *)

Section InitDraws.
Variable rng : Type.
Variable next_unit : rng -> R * rng.
Variable junk : nat -> R.

Lemma draws_snd (n : nat) (lo hi : R) (g : rng) :
  snd (draws next_unit n lo hi g)
    = Nat.iter n (fun g' => snd (next_unit g')) g.
Proof.
  revert g. induction n as [|n IH]; intros g.
  - reflexivity.
  - rewrite Nat.iter_succ_r. simpl.
    destruct (next_unit g) as [u g1] eqn:E. specialize (IH g1).
    destruct (draws next_unit n lo hi g1) as [l g2]. simpl in *.
    exact IH.
Qed.

Lemma draws_nth (n k : nat) (lo hi : R) (g : rng) :
  k < n ->
  nth k (fst (draws next_unit n lo hi g)) 0%R
    = (lo + fst (next_unit (Nat.iter k (fun g' => snd (next_unit g')) g)) * (hi - lo))%R.
Proof.
  revert k g. induction n as [|n IH]; intros k g Hk; [lia|].
  simpl. destruct (next_unit g) as [u g1] eqn:E.
  destruct k as [|k].
  - destruct (draws next_unit n lo hi g1) as [l g2]. simpl. now rewrite E.
  - specialize (IH k g1). rewrite Nat.iter_succ_r, E. cbn [snd].
    destruct (draws next_unit n lo hi g1) as [l g2]. cbn [fst nth] in *.
    apply IH. lia.
Qed.

(** X9: a successful construction allocates exactly the tensors that become
    the parameters of the module: the weight first and then, only with
    has_bias, the bias of shape (out_features,); nothing else is
    allocated, reset_parameters fills the two in place. *)
Theorem init_allocations :
  (forall (in_f out_f : Z) (hb : bool) (w : world rng),
      (0 < in_f)%Z -> (0 <= out_f)%Z ->
      exists m w',
        Linear_init next_unit junk in_f out_f hb w = (Ok m, w') /\
        allocated w' =
          (if hb then [[Z.to_nat out_f]] else []) ++
          [Z.to_nat out_f; Z.to_nat in_f] :: allocated w /\
        shape (weight m) = [Z.to_nat out_f; Z.to_nat in_f] /\
        option_map shape (bias m) =
          (if hb then Some [Z.to_nat out_f] else None)) /\
  (forall (in1_f in2_f out_f : Z) (hb : bool) (w : world rng),
      (0 < in1_f)%Z -> (0 <= in2_f)%Z -> (0 <= out_f)%Z ->
      exists m w',
        Bilinear_init next_unit junk in1_f in2_f out_f hb w = (Ok m, w') /\
        allocated w' =
          (if hb then [[Z.to_nat out_f]] else []) ++
          [Z.to_nat out_f; Z.to_nat in1_f; Z.to_nat in2_f] :: allocated w /\
        shape (bil_weight m) =
          [Z.to_nat out_f; Z.to_nat in1_f; Z.to_nat in2_f] /\
        option_map shape (bil_bias m) =
          (if hb then Some [Z.to_nat out_f] else None)).
Proof.
  split.
  - intros in_f out_f hb w Hin Hout.
    destruct (@Linear_init_exact rng next_unit junk in_f out_f hb w Hin Hout
                _ _ _ eq_refl eq_refl eq_refl)
      as [m [w' [E [_ [_ [Hw [Hsb [_ [_ Ha]]]]]]]]].
    exists m, w'. split; [exact E|]. split; [exact Ha|].
    split; [now rewrite Hw | exact Hsb].
  - intros in1_f in2_f out_f hb w Hin1 Hin2 Hout.
    destruct (@Bilinear_init_exact rng next_unit junk in1_f in2_f out_f hb w
                Hin1 Hin2 Hout _ _ _ _ eq_refl eq_refl eq_refl eq_refl)
      as [m [w' [E [_ [_ [_ [Hw [Hsb [_ [_ Ha]]]]]]]]]].
    exists m, w'. split; [exact E|]. split; [exact Ha|].
    split; [now rewrite Hw | exact Hsb].
Qed.

Section DrawsBounds.
Hypothesis next_unit_range :
  forall g, (0 <= fst (next_unit g) <= 1)%R.

(** What [Linear.__init__] leaves in the parameters, for a bound [s]. *)
Lemma Linear_init_values (in_f out_f : Z) (hb : bool) (w : world rng) :
  (0 < in_f)%Z -> (0 <= out_f)%Z ->
  exists m w',
    Linear_init next_unit junk in_f out_f hb w = (Ok m, w') /\
    shape (weight m) = [Z.to_nat out_f; Z.to_nat in_f] /\
    wf (weight m) /\
    (forall b, bias m = Some b -> shape b = [Z.to_nat out_f] /\ wf b) /\
    let s := (1 / sqrt (IZR in_f))%R in
    Forall (fun x => (- s <= x <= s)%R) (data (weight m)) /\
    (forall b, bias m = Some b ->
       Forall (fun x => (- s <= x <= s)%R) (data b)) /\
    (forall k, k < length (data (weight m)) ->
       nth k (data (weight m)) 0%R =
         (- s + fst (next_unit
                       (Nat.iter k (fun g => snd (next_unit g)) (gen w)))
                * (s - - s))%R) /\
    (forall b k, bias m = Some b -> k < length (data b) ->
       nth k (data b) 0%R =
         (- s + fst (next_unit
                       (Nat.iter (length (data (weight m)) + k)
                          (fun g => snd (next_unit g)) (gen w)))
                * (s - - s))%R).
Proof.
  intros Hin Hout.
  destruct (@Linear_init_exact rng next_unit junk in_f out_f hb w Hin Hout
              _ _ _ eq_refl eq_refl eq_refl)
    as [m [w' [E [_ [_ [Hw [Hsb [Hdb _]]]]]]]].
  exists m, w'. split; [exact E|].
  pose proof (bound_order Hin) as Hord.
  set (s := (1 / sqrt (IZR in_f))%R) in *.
  set (nw := numel [Z.to_nat out_f; Z.to_nat in_f]) in *.
  assert (Hdw : data (weight m) = fst (draws next_unit nw (- s) s (gen w)))
    by now rewrite Hw.
  assert (Hlw : length (data (weight m)) = nw)
    by (rewrite Hdw; apply draws_length).
  assert (Hbias : forall b, bias m = Some b ->
            shape b = [Z.to_nat out_f] /\
            data b = fst (draws next_unit (Z.to_nat out_f) (- s) s
                            (snd (draws next_unit nw (- s) s (gen w))))).
  { intros b Eb. rewrite Eb in Hsb, Hdb. simpl in Hsb, Hdb.
    destruct hb; [|discriminate]. injection Hsb as Hsb. now split. }
  split; [now rewrite Hw|].
  split; [unfold wf; now rewrite Hlw, Hw|].
  split.
  { intros b Eb. destruct (Hbias b Eb) as [Hs Hd]. split; [exact Hs|].
    unfold wf. rewrite Hs, Hd, draws_length.
    unfold numel. simpl. lia. }
  cbv zeta. split; [rewrite Hdw; now apply draws_bounds|].
  split.
  { intros b Eb. destruct (Hbias b Eb) as [_ Hd]. rewrite Hd.
    now apply draws_bounds. }
  split.
  { intros k Hk. rewrite Hdw. apply draws_nth. now rewrite <- Hlw. }
  intros b k Eb Hk. destruct (Hbias b Eb) as [_ Hd].
  rewrite Hd in Hk |- *. rewrite draws_length in Hk.
  rewrite draws_nth by exact Hk.
  now rewrite draws_snd, Hlw, Nat.add_comm, Nat.iter_add.
Qed.

Lemma Bilinear_init_values (in1_f in2_f out_f : Z) (hb : bool)
  (w : world rng) :
  (0 < in1_f)%Z -> (0 <= in2_f)%Z -> (0 <= out_f)%Z ->
  exists m w',
    Bilinear_init next_unit junk in1_f in2_f out_f hb w = (Ok m, w') /\
    shape (bil_weight m) =
      [Z.to_nat out_f; Z.to_nat in1_f; Z.to_nat in2_f] /\
    wf (bil_weight m) /\
    (forall b, bil_bias m = Some b -> shape b = [Z.to_nat out_f] /\ wf b) /\
    let s := (1 / sqrt (IZR in1_f))%R in
    Forall (fun x => (- s <= x <= s)%R) (data (bil_weight m)) /\
    (forall b, bil_bias m = Some b ->
       Forall (fun x => (- s <= x <= s)%R) (data b)) /\
    (forall k, k < length (data (bil_weight m)) ->
       nth k (data (bil_weight m)) 0%R =
         (- s + fst (next_unit
                       (Nat.iter k (fun g => snd (next_unit g)) (gen w)))
                * (s - - s))%R) /\
    (forall b k, bil_bias m = Some b -> k < length (data b) ->
       nth k (data b) 0%R =
         (- s + fst (next_unit
                       (Nat.iter (length (data (bil_weight m)) + k)
                          (fun g => snd (next_unit g)) (gen w)))
                * (s - - s))%R).
Proof.
  intros Hin1 Hin2 Hout.
  destruct (@Bilinear_init_exact rng next_unit junk in1_f in2_f out_f hb w
              Hin1 Hin2 Hout _ _ _ _ eq_refl eq_refl eq_refl eq_refl)
    as [m [w' [E [_ [_ [_ [Hw [Hsb [Hdb _]]]]]]]]].
  exists m, w'. split; [exact E|].
  pose proof (bound_order Hin1) as Hord.
  set (s := (1 / sqrt (IZR in1_f))%R) in *.
  set (nw := numel [Z.to_nat out_f; Z.to_nat in1_f; Z.to_nat in2_f]) in *.
  assert (Hdw : data (bil_weight m)
                = fst (draws next_unit nw (- s) s (gen w)))
    by now rewrite Hw.
  assert (Hlw : length (data (bil_weight m)) = nw)
    by (rewrite Hdw; apply draws_length).
  assert (Hbias : forall b, bil_bias m = Some b ->
            shape b = [Z.to_nat out_f] /\
            data b = fst (draws next_unit (Z.to_nat out_f) (- s) s
                            (snd (draws next_unit nw (- s) s (gen w))))).
  { intros b Eb. rewrite Eb in Hsb, Hdb. simpl in Hsb, Hdb.
    destruct hb; [|discriminate]. injection Hsb as Hsb. now split. }
  split; [now rewrite Hw|].
  split; [unfold wf; now rewrite Hlw, Hw|].
  split.
  { intros b Eb. destruct (Hbias b Eb) as [Hs Hd]. split; [exact Hs|].
    unfold wf. rewrite Hs, Hd, draws_length.
    unfold numel. simpl. lia. }
  cbv zeta. split; [rewrite Hdw; now apply draws_bounds|].
  split.
  { intros b Eb. destruct (Hbias b Eb) as [_ Hd]. rewrite Hd.
    now apply draws_bounds. }
  split.
  { intros k Hk. rewrite Hdw. apply draws_nth. now rewrite <- Hlw. }
  intros b k Eb Hk. destruct (Hbias b Eb) as [_ Hd].
  rewrite Hd in Hk |- *. rewrite draws_length in Hk.
  rewrite draws_nth by exact Hk.
  now rewrite draws_snd, Hlw, Nat.add_comm, Nat.iter_add.
Qed.

(** C4: for Linear and Bilinear the initialisation computes
    bound = 1 / sqrt(fan_in), fan_in being the size of the second dimension
    of the weight (in_features for Linear, in1_features alone for
    Bilinear), and fills every element of the weight, and of the bias when
    there is one, with a draw of the closed interval [-bound, bound]: the
    element is -bound + u * (bound - (-bound)) for a fresh number u of the
    unit interval taken from the generator, the elements of the weight in
    storage order first, those of the bias after them, so that the draws
    are as uniform and as independent as the numbers of the generator.  For
    Linear(in_features=100, out_features=1) every element of the weight is
    within [-0.1, 0.1]. *)
Theorem reset_parameters_bounds :
  (forall (in_f out_f : Z) (hb : bool) (w : world rng),
      (0 < in_f)%Z -> (0 <= out_f)%Z ->
      exists m w',
        Linear_init next_unit junk in_f out_f hb w = (Ok m, w') /\
        size (weight m) 1 = Ok (Z.to_nat in_f) /\
        stdv_of (weight m) = Ok (1 / sqrt (IZR in_f))%R /\
        shape (weight m) = [Z.to_nat out_f; Z.to_nat in_f] /\
        wf (weight m) /\
        Forall (fun x => (- (1 / sqrt (IZR in_f)) <= x
                          <= 1 / sqrt (IZR in_f))%R) (data (weight m)) /\
        (forall b, bias m = Some b ->
           wf b /\
           Forall (fun x => (- (1 / sqrt (IZR in_f)) <= x
                             <= 1 / sqrt (IZR in_f))%R) (data b)) /\
        (forall k, k < length (data (weight m)) ->
           nth k (data (weight m)) 0%R =
             (- (1 / sqrt (IZR in_f))
              + fst (next_unit
                       (Nat.iter k (fun g => snd (next_unit g)) (gen w)))
                * (1 / sqrt (IZR in_f) - - (1 / sqrt (IZR in_f))))%R) /\
        (forall b k, bias m = Some b -> k < length (data b) ->
           nth k (data b) 0%R =
             (- (1 / sqrt (IZR in_f))
              + fst (next_unit
                       (Nat.iter (length (data (weight m)) + k)
                          (fun g => snd (next_unit g)) (gen w)))
                * (1 / sqrt (IZR in_f) - - (1 / sqrt (IZR in_f))))%R)) /\
  (forall (in1_f in2_f out_f : Z) (hb : bool) (w : world rng),
      (0 < in1_f)%Z -> (0 <= in2_f)%Z -> (0 <= out_f)%Z ->
      exists m w',
        Bilinear_init next_unit junk in1_f in2_f out_f hb w = (Ok m, w') /\
        size (bil_weight m) 1 = Ok (Z.to_nat in1_f) /\
        stdv_of (bil_weight m) = Ok (1 / sqrt (IZR in1_f))%R /\
        shape (bil_weight m) =
          [Z.to_nat out_f; Z.to_nat in1_f; Z.to_nat in2_f] /\
        wf (bil_weight m) /\
        Forall (fun x => (- (1 / sqrt (IZR in1_f)) <= x
                          <= 1 / sqrt (IZR in1_f))%R)
          (data (bil_weight m)) /\
        (forall b, bil_bias m = Some b ->
           wf b /\
           Forall (fun x => (- (1 / sqrt (IZR in1_f)) <= x
                             <= 1 / sqrt (IZR in1_f))%R) (data b)) /\
        (forall k, k < length (data (bil_weight m)) ->
           nth k (data (bil_weight m)) 0%R =
             (- (1 / sqrt (IZR in1_f))
              + fst (next_unit
                       (Nat.iter k (fun g => snd (next_unit g)) (gen w)))
                * (1 / sqrt (IZR in1_f) - - (1 / sqrt (IZR in1_f))))%R) /\
        (forall b k, bil_bias m = Some b -> k < length (data b) ->
           nth k (data b) 0%R =
             (- (1 / sqrt (IZR in1_f))
              + fst (next_unit
                       (Nat.iter (length (data (bil_weight m)) + k)
                          (fun g => snd (next_unit g)) (gen w)))
                * (1 / sqrt (IZR in1_f) - - (1 / sqrt (IZR in1_f))))%R)) /\
  (forall (hb : bool) (w : world rng),
      exists m w',
        Linear_init next_unit junk 100 1 hb w = (Ok m, w') /\
        shape (weight m) = [1; 100] /\
        wf (weight m) /\
        Forall (fun x => (- (1 / 10) <= x <= 1 / 10)%R) (data (weight m)) /\
        (forall k, k < 100 ->
           nth k (data (weight m)) 0%R =
             (- (1 / 10)
              + fst (next_unit
                       (Nat.iter k (fun g => snd (next_unit g)) (gen w)))
                * (1 / 10 - - (1 / 10)))%R)).
Proof.
  split; [|split].
  - intros in_f out_f hb w Hin Hout.
    destruct (Linear_init_values hb w Hin Hout)
      as [m [w' [E [Hs [W [Hb [Hf [Hfb [Hn Hnb]]]]]]]]].
    exists m, w'. split; [exact E|].
    split; [unfold size; now rewrite Hs|].
    split.
    { rewrite <- (INR_to_nat (z := in_f)) by lia.
      apply stdv_of_pos; [now rewrite Hs | lia]. }
    split; [exact Hs|]. split; [exact W|]. split; [exact Hf|].
    split; [|split; [exact Hn | exact Hnb]].
    intros b Eb. split; [now apply Hb | now apply Hfb].
  - intros in1_f in2_f out_f hb w Hin1 Hin2 Hout.
    destruct (Bilinear_init_values hb w Hin1 Hin2 Hout)
      as [m [w' [E [Hs [W [Hb [Hf [Hfb [Hn Hnb]]]]]]]]].
    exists m, w'. split; [exact E|].
    split; [unfold size; now rewrite Hs|].
    split.
    { rewrite <- (INR_to_nat (z := in1_f)) by lia.
      apply stdv_of_pos; [now rewrite Hs | lia]. }
    split; [exact Hs|]. split; [exact W|]. split; [exact Hf|].
    split; [|split; [exact Hn | exact Hnb]].
    intros b Eb. split; [now apply Hb | now apply Hfb].
  - intros hb w.
    destruct (@Linear_init_values 100 1 hb w)
      as [m [w' [E [Hs [W [_ [Hf [_ [Hn _]]]]]]]]]; [lia | lia |].
    cbv zeta in Hf, Hn. rewrite sqrt_100 in Hf, Hn.
    exists m, w'. split; [exact E|]. split; [exact Hs|].
    split; [exact W|]. split; [exact Hf|].
    intros k Hk. apply Hn. rewrite W, Hs. unfold numel. simpl. lia.
Qed.

End DrawsBounds.

End InitDraws.

Lemma alternating_rng_range :
  forall g : bool, (0 <= fst (alternating_rng g) <= 1)%R.
Proof. intros [|]; simpl; lra. Qed.

Lemma reset_parameters_bounds_witness :
  exists m w',
    Linear_init alternating_rng no_junk 4 2 true world_alt = (Ok m, w') /\
    shape (weight m) = [2; 4] /\
    Forall (fun x => (- (1 / sqrt 4) <= x <= 1 / sqrt 4)%R)
      (data (weight m)) /\
    nth 0 (data (weight m)) 0%R
      = (- (1 / sqrt 4) + 0 * (1 / sqrt 4 - - (1 / sqrt 4)))%R /\
    nth 1 (data (weight m)) 0%R
      = (- (1 / sqrt 4) + 1 * (1 / sqrt 4 - - (1 / sqrt 4)))%R.
Proof.
  destruct (proj1 (@reset_parameters_bounds bool alternating_rng no_junk
                     alternating_rng_range) 4%Z 2%Z true world_alt)
    as [m [w' [E [_ [_ [Hs [W [Hf [_ [Hn _]]]]]]]]]]; [lia | lia |].
  assert (Hl : length (data (weight m)) = 8)
    by (rewrite W, Hs; reflexivity).
  exists m, w'. split; [exact E|]. split; [exact Hs|]. split; [exact Hf|].
  split.
  - apply (Hn 0). rewrite Hl. lia.
  - apply (Hn 1). rewrite Hl. lia.
Defined.

Lemma init_allocations_witness :
  exists m w',
    Linear_init const_rng no_junk 3 2 true world0 = (Ok m, w') /\
    allocated w' = [[2]; [2; 3]] /\
    shape (weight m) = [2; 3] /\
    option_map shape (bias m) = Some [2].
Proof.
  apply (proj1 (@init_allocations unit const_rng no_junk)
           3%Z 2%Z true world0); lia.
Defined.
